(** * AnsiEscape: removal and test formatting of ANSI escape codes

    A shallow embedding of
    [libraries/node-core-library/src/Terminal/AnsiEscape.ts] and the
    properties of [removeCodes] and [formatForTests].

    The class is three regular expressions, two calls to
    [String.prototype.replace], one to [String.prototype.match], one to
    [parseInt] and a [switch].  The embedding keeps that shape: module [JS]
    holds the fragment of ECMAScript strings and regular expressions that the
    class uses, module [AnsiEscape] holds the class, written against [JS]
    the way the TypeScript is written against the built-ins. *)

From Stdlib Require Import List PeanoNat Wf_nat NArith Bool Lia String Ascii.
From Stdlib Require DecimalString.
Import ListNotations.

Local Open Scope N_scope.
Local Open Scope list_scope.

(* ================================================================== *)
(** ** The ECMAScript fragment                                         *)
(* ================================================================== *)

Module JS.

(** A string is a sequence of UTF-16 code units.  No bound on a unit is
    needed by anything below, so a unit is an [N].  The regular expressions
    of the class carry the [u] flag and so match by code point; their
    character classes only hold code points below 0x80, which are one unit
    each and are never half of a surrogate pair, so matching by unit and by
    code point select the same spans. *)
Abbreviation char := N (only parsing).
Abbreviation jsstring := (list N) (only parsing).

(** A string literal of the source. *)
Definition lit (s : string) : jsstring :=
  map N_of_ascii (list_ascii_of_string s).

(** [String(n)] for a non-negative integer, as in ["\x1b[" + code + "m"]. *)
Definition toString (n : N) : jsstring :=
  lit (DecimalString.NilEmpty.string_of_uint (N.to_uint n)).

(** *** Regular expressions

    The patterns of the class are sequences of single characters, character
    ranges, [*] and [+] applied to a range, and one capturing group. *)

Inductive atom :=
| Chr (c : char)
| Range (lo hi : char).

Definition accepts (a : atom) (c : char) : bool :=
  match a with
  | Chr x => c =? x
  | Range lo hi => (lo <=? c) && (c <=? hi)
  end.

Inductive node :=
| One (a : atom)       (* a      *)
| Star (a : atom)      (* a*     *)
| Open                 (* (      *)
| Close.               (* )      *)

Definition regexp := list node.

(** [a+] is [aa*]. *)
Definition Plus (a : atom) : regexp := [One a; Star a].

(** The backtracking matcher.  [matcher r s] matches [r] at the start of
    [s]; it answers the text left after the match together with the texts
    that were left at each parenthesis, outermost first.  [Star] is greedy: it
    first takes one more character and only when the rest of the pattern
    fails after that does it try the rest of the pattern here. *)
Fixpoint matcher (r : regexp) : jsstring -> option (list jsstring * jsstring) :=
  match r with
  | [] => fun s => Some ([], s)
  | One a :: r' => fun s =>
      match s with
      | c :: s' => if accepts a c then matcher r' s' else None
      | [] => None
      end
  | Star a :: r' =>
      fix star (s : jsstring) : option (list jsstring * jsstring) :=
        match s with
        | c :: s' =>
            if accepts a c then
              match star s' with
              | Some m => Some m
              | None => matcher r' s
              end
            else matcher r' s
        | [] => matcher r' s
        end
  | (Open | Close) :: r' => fun s =>
      match matcher r' s with
      | Some (marks, e) => Some (s :: marks, e)
      | None => None
      end
  end.

(** The text between two positions of one string, each position given by
    the text that follows it. *)
Definition between (from to : jsstring) : jsstring :=
  firstn (List.length from - List.length to) from.

(** What a successful match hands to the caller: the matched text and the
    text of capturing group 1 ([None] when the pattern has no group). *)
Record MatchResult := {
  matched : jsstring;
  group1 : option jsstring
}.

Definition result_of (s : jsstring) (m : list jsstring * jsstring) : MatchResult :=
  {| matched := between s (snd m);
     group1 := match fst m with
               | o :: c :: _ => Some (between o c)
               | _ => None
               end |}.

(** [RegExp.prototype.exec] from index 0 for a pattern without the sticky
    flag: the leftmost position where the matcher succeeds. *)
Fixpoint exec (r : regexp) (s : jsstring) : option MatchResult :=
  match matcher r s with
  | Some m => Some (result_of s m)
  | None =>
      match s with
      | [] => None
      | _ :: s' => exec r s'
      end
  end.

(** [String.prototype.match] with a pattern that has no [g] flag. *)
Definition match_ (s : jsstring) (r : regexp) : option MatchResult := exec r s.

(** [String.prototype.replace] with a pattern that has the [g] flag and a
    replacer function.  The scan goes left to right; [skip] counts the
    characters of the current match that are still to be passed over.  After
    an empty match the scan moves on by one character, which is copied. *)
Fixpoint replace_from (r : regexp) (f : MatchResult -> jsstring)
    (s : jsstring) (skip : nat) : jsstring :=
  match s with
  | [] =>
      match skip, matcher r [] with
      | O, Some m => f (result_of [] m)
      | _, _ => []
      end
  | c :: s' =>
      match skip with
      | S k => replace_from r f s' k
      | O =>
          match matcher r s with
          | Some m =>
              f (result_of s m) ++
              match (List.length s - List.length (snd m))%nat with
              | O => c :: replace_from r f s' 0
              | S k => replace_from r f s' k
              end
          | None => c :: replace_from r f s' 0
          end
      end
  end.

Definition replace (s : jsstring) (r : regexp) (f : MatchResult -> jsstring) : jsstring :=
  replace_from r f s 0.

(** The same with a replacement string.  The replacement strings of the
    class hold no [$], so they are inserted as they are. *)
Definition replace_str (s : jsstring) (r : regexp) (by_ : jsstring) : jsstring :=
  replace s r (fun _ => by_).

(** *** [parseInt]

    [parseInt] reads the longest prefix of decimal digits and answers [NaN]
    ([None]) when there is none.  White space, signs and the [0x] prefix are
    left out: the class only passes it the text of the group [[0-9]+].
    The result is the exact integer.  ECMAScript rounds it to a double, which
    is exact up to 2^53 and stays above 2^53 beyond; the class only compares
    the result with integers up to 100, so the comparison is the same. *)
Definition is_digit (c : char) : bool := (48 <=? c) && (c <=? 57).

Fixpoint parse_digits (acc : N) (s : jsstring) : N :=
  match s with
  | c :: s' => if is_digit c then parse_digits (10 * acc + (c - 48)) s' else acc
  | [] => acc
  end.

Definition parseInt (s : jsstring) : option N :=
  match s with
  | c :: _ => if is_digit c then Some (parse_digits 0 s) else None
  | [] => None
  end.

(** Truthiness of a string and of an optional boolean. *)
Definition truthy_string (s : jsstring) : bool :=
  match s with [] => false | _ => true end.

Definition truthy_flag (b : option bool) : bool :=
  match b with Some true => true | _ => false end.

End JS.

(* ================================================================== *)
(** ** The class                                                       *)
(* ================================================================== *)

Module AnsiEscape.
Import JS.

Definition ESC : char := 0x1b.
Definition LF : char := 0x0a.
Definition CR : char := 0x0d.

(** [IAnsiEscapeConvertForTestsOptions]: one optional boolean. *)
Record IAnsiEscapeConvertForTestsOptions := {
  encodeNewlines : option bool
}.

(** [/\x1b\[([\x30-\x3f]*[\x20-\x2f]*[\x40-\x7e])/gu] *)
Definition _csiRegExp : regexp :=
  [One (Chr 0x1b); One (Chr 0x5b); Open;
   Star (Range 0x30 0x3f); Star (Range 0x20 0x2f); One (Range 0x40 0x7e);
   Close].

(** [/([0-9]+)m/u] *)
Definition _sgrRegExp : regexp :=
  [Open] ++ Plus (Range 0x30 0x39) ++ [Close; One (Chr 0x6d)].

(** [/\n/g] and [/\r/g] *)
Definition _backslashNRegExp : regexp := [One (Chr 0x0a)].
Definition _backslashRRegExp : regexp := [One (Chr 0x0d)].

Definition removeCodes (text : jsstring) : jsstring :=
  replace_str text _csiRegExp [].

(** The [switch] of [_tryGetSgrFriendlyName]; [None] is [undefined], and a
    [NaN] argument falls to [default]. *)
Definition _tryGetSgrFriendlyName (sgiParameter : option N) : option jsstring :=
  match sgiParameter with
  | Some 30 => Some (lit "black")
  | Some 31 => Some (lit "red")
  | Some 32 => Some (lit "green")
  | Some 33 => Some (lit "yellow")
  | Some 34 => Some (lit "blue")
  | Some 35 => Some (lit "magenta")
  | Some 36 => Some (lit "cyan")
  | Some 37 => Some (lit "white")
  | Some 90 => Some (lit "gray")
  | Some 39 => Some (lit "default")
  | Some 40 => Some (lit "black-bg")
  | Some 41 => Some (lit "red-bg")
  | Some 42 => Some (lit "green-bg")
  | Some 43 => Some (lit "yellow-bg")
  | Some 44 => Some (lit "blue-bg")
  | Some 45 => Some (lit "magenta-bg")
  | Some 46 => Some (lit "cyan-bg")
  | Some 47 => Some (lit "white-bg")
  | Some 100 => Some (lit "gray-bg")
  | Some 49 => Some (lit "default-bg")
  | Some 1 => Some (lit "bold")
  | Some 21 => Some (lit "bold-off")
  | Some 2 => Some (lit "dim")
  | Some 22 => Some (lit "normal")
  | Some 4 => Some (lit "underline")
  | Some 24 => Some (lit "underline-off")
  | Some 5 => Some (lit "blink")
  | Some 25 => Some (lit "blink-off")
  | Some 7 => Some (lit "invert")
  | Some 27 => Some (lit "invert-off")
  | Some 8 => Some (lit "hidden")
  | Some 28 => Some (lit "hidden-off")
  | _ => None
  end.

(** The text of group 1 of a match of a pattern that has a group. *)
Definition csiCode_of (m : MatchResult) : jsstring :=
  match group1 m with Some g => g | None => [] end.

(** The first half of the replacer of [formatForTests]: the friendly name
    of the code, when the [if (match)] and the [if (sgrParameterName)] both
    pass. *)
Definition sgrParameterName_of (csiCode : jsstring) : option jsstring :=
  match match_ csiCode _sgrRegExp with
  | Some match' =>
      let sgrParameter := parseInt (csiCode_of match') in
      match _tryGetSgrFriendlyName sgrParameter with
      | Some sgrParameterName =>
          if truthy_string sgrParameterName then Some sgrParameterName else None
      | None => None
      end
  | None => None
  end.

(** The replacer of [formatForTests], a function of the capture and of the
    text of group 1. *)
Definition replacer (capture csiCode : jsstring) : jsstring :=
  match sgrParameterName_of csiCode with
  | Some sgrParameterName => lit "[" ++ sgrParameterName ++ lit "]"
  | None => lit "[" ++ csiCode ++ lit "]"
  end.

Definition formatForTests (text : jsstring)
    (options : option IAnsiEscapeConvertForTestsOptions) : jsstring :=
  let options :=
    match options with
    | Some o => o
    | None => {| encodeNewlines := None |}
    end in
  let result :=
    replace text _csiRegExp (fun m => replacer (matched m) (csiCode_of m)) in
  if truthy_flag (encodeNewlines options) then
    replace_str (replace_str result _backslashNRegExp (lit "[n]"))
                _backslashRRegExp (lit "[r]")
  else result.

End AnsiEscape.

(* ================================================================== *)
(** ** The grammar and the tables of the specification                 *)
(* ================================================================== *)

Module Grammar.
Import JS AnsiEscape.

(** The three byte classes of a control sequence. *)
Definition is_param (c : char) : bool := (0x30 <=? c) && (c <=? 0x3f).
Definition is_intermediate (c : char) : bool := (0x20 <=? c) && (c <=? 0x2f).
Definition is_final (c : char) : bool := (0x40 <=? c) && (c <=? 0x7e).

(** What follows the introducer in a CSI sequence: parameter bytes, then
    intermediate bytes, then one final byte. *)
Definition CsiCode (code : jsstring) : Prop :=
  exists ps ims f,
    code = ps ++ ims ++ [f] /\
    forallb is_param ps = true /\
    forallb is_intermediate ims = true /\
    is_final f = true.

(** The CSI grammar: the escape character, ["["], and a code. *)
Definition CsiSequence (m : jsstring) : Prop :=
  exists code, m = ESC :: 0x5b :: code /\ CsiCode code.

(** No substring of [s] is a CSI sequence. *)
Definition NoCsiSequence (s : jsstring) : Prop :=
  forall pre m post, s = pre ++ m ++ post -> ~ CsiSequence m.

(** Every escape character of [s] is the first character of a CSI
    sequence. *)
Definition EveryEscapeBeginsCsi (s : jsstring) : Prop :=
  forall pre post, s = pre ++ ESC :: post ->
    exists m rest, CsiSequence m /\ ESC :: post = m ++ rest.

(** Deletion of the CSI sequences of a text, scanning from the left: at a
    position where a CSI sequence begins the sequence is dropped and the scan
    goes on after it; at any other position the character is kept. *)
Inductive Deleted : jsstring -> jsstring -> Prop :=
| Deleted_nil : Deleted [] []
| Deleted_csi m rest out :
    CsiSequence m -> Deleted rest out -> Deleted (m ++ rest) out
| Deleted_keep c s out :
    (forall m rest, CsiSequence m -> c :: s <> m ++ rest) ->
    Deleted s out -> Deleted (c :: s) (c :: out).

(** The longest prefix of characters of a class, and what follows it. *)
Fixpoint take_while (p : char -> bool) (s : jsstring) : jsstring :=
  match s with
  | c :: s' => if p c then c :: take_while p s' else []
  | [] => []
  end.

Fixpoint drop_while (p : char -> bool) (s : jsstring) : jsstring :=
  match s with
  | c :: s' => if p c then drop_while p s' else s
  | [] => []
  end.

(** The single-pass scanner for one CSI sequence at the start of a text:
    introducer, parameter run, intermediate run, final byte.  It answers the
    code and the text after the sequence. *)
Definition recognize (s : jsstring) : option (jsstring * jsstring) :=
  match s with
  | c1 :: c2 :: t =>
      if (c1 =? ESC) && (c2 =? 0x5b) then
        let ps := take_while is_param t in
        let t1 := drop_while is_param t in
        let ims := take_while is_intermediate t1 in
        match drop_while is_intermediate t1 with
        | f :: e => if is_final f then Some (ps ++ ims ++ [f], e) else None
        | [] => None
        end
      else None
  | _ => None
  end.

(** The tail of the CSI pattern, after the introducer and the open
    parenthesis. *)
Definition csi_tail : regexp :=
  [Star (Range 0x30 0x3f); Star (Range 0x20 0x2f); One (Range 0x40 0x7e); Close].

(** The check that every escape character begins a CSI sequence. *)
Fixpoint escapes_begin_csi (s : jsstring) : bool :=
  match s with
  | [] => true
  | c :: s' =>
      (negb (c =? ESC) || match recognize s with Some _ => true | None => false end)
      && escapes_begin_csi s'
  end.

(** The SGR table as the specification lists it. *)
Definition sgr_table : list (N * string) :=
  [ (30, "black"); (31, "red"); (32, "green"); (33, "yellow");
    (34, "blue"); (35, "magenta"); (36, "cyan"); (37, "white");
    (90, "gray"); (39, "default");
    (40, "black-bg"); (41, "red-bg"); (42, "green-bg"); (43, "yellow-bg");
    (44, "blue-bg"); (45, "magenta-bg"); (46, "cyan-bg"); (47, "white-bg");
    (100, "gray-bg"); (49, "default-bg");
    (1, "bold"); (21, "bold-off"); (2, "dim"); (22, "normal");
    (4, "underline"); (24, "underline-off"); (5, "blink"); (25, "blink-off");
    (7, "invert"); (27, "invert-off"); (8, "hidden"); (28, "hidden-off") ]%string.

(** The translation step in the words of the specification: a friendly
    name only when the whole code is decimal digits followed by ["m"]. *)
Definition whole_code_translation (code : jsstring) : option jsstring :=
  match rev code with
  | c :: rds =>
      if (c =? 0x6d) && forallb is_digit rds && truthy_string rds
      then _tryGetSgrFriendlyName (parseInt (rev rds))
      else None
  | [] => None
  end.

(** The token that stands for one character when newlines are encoded. *)
Definition encode_newline (c : char) : jsstring :=
  if c =? LF then lit "[n]" else if c =? CR then lit "[r]" else [c].

(** The characters that a deleted sequence or an inserted token can hold
    besides the escape character: printable ASCII. *)
Definition is_printable (c : char) : bool := (0x20 <=? c) && (c <=? 0x7e).

End Grammar.

Import JS AnsiEscape Grammar.

(* ================================================================== *)
(** ** The matcher and [replace]                                       *)
(* ================================================================== *)

Section Engine.

Lemma matcher_star (a : atom) (r : regexp) (s : jsstring) :
  matcher (Star a :: r) s =
  match s with
  | c :: s' =>
      if accepts a c then
        match matcher (Star a :: r) s' with
        | Some m => Some m
        | None => matcher r s
        end
      else matcher r s
  | [] => matcher r s
  end.
Proof. destruct s; reflexivity. Qed.

(** A greedy star never gives a character back when the rest of the
    pattern cannot start with a character of the class. *)
Lemma matcher_star_greedy (a : atom) (r : regexp) :
  (forall c s, accepts a c = true -> matcher r (c :: s) = None) ->
  forall s, matcher (Star a :: r) s = matcher r (drop_while (accepts a) s).
Proof.
  intros Hdisj s.
  induction s as [|c s IH]; rewrite matcher_star.
  - reflexivity.
  - cbn [drop_while].
    destruct (accepts a c) eqn:Hc; [|reflexivity].
    rewrite IH.
    destruct (matcher r (drop_while (accepts a) s)); [reflexivity|].
    now apply Hdisj.
Qed.

Lemma take_drop_while (p : char -> bool) (s : jsstring) :
  take_while p s ++ drop_while p s = s.
Proof.
  induction s as [|c s IH]; cbn; [reflexivity|].
  destruct (p c); cbn; [now rewrite IH | reflexivity].
Qed.

Lemma take_while_all (p : char -> bool) (s : jsstring) :
  forallb p (take_while p s) = true.
Proof.
  induction s as [|c s IH]; cbn; [reflexivity|].
  destruct (p c) eqn:Hc; cbn; [now rewrite Hc | reflexivity].
Qed.

Lemma drop_while_head (p : char -> bool) (s : jsstring) c t :
  drop_while p s = c :: t -> p c = false.
Proof.
  induction s as [|d s IH]; cbn; [discriminate|].
  destruct (p d) eqn:Hd; [exact IH|].
  intros [= -> _]. exact Hd.
Qed.

(** A run of the class followed by a character outside it is split where
    the run ends. *)
Lemma take_while_run (p : char -> bool) (run : jsstring) c t :
  forallb p run = true -> p c = false ->
  take_while p (run ++ c :: t) = run.
Proof.
  intros Hrun Hc. induction run as [|d run IH]; cbn in *.
  - now rewrite Hc.
  - apply andb_true_iff in Hrun as [Hd Hrun]. rewrite Hd. now rewrite IH.
Qed.

Lemma drop_while_run (p : char -> bool) (run : jsstring) c t :
  forallb p run = true -> p c = false ->
  drop_while p (run ++ c :: t) = c :: t.
Proof.
  intros Hrun Hc. induction run as [|d run IH]; cbn in *.
  - now rewrite Hc.
  - apply andb_true_iff in Hrun as [Hd Hrun]. rewrite Hd. now rewrite IH.
Qed.

Lemma between_app (m e : jsstring) : between (m ++ e) e = m.
Proof.
  unfold between. rewrite length_app.
  replace (List.length m + List.length e - List.length e)%nat
    with (List.length m) by lia.
  rewrite firstn_app, Nat.sub_diag, firstn_all. cbn.
  now rewrite app_nil_r.
Qed.

Lemma between_nil (s : jsstring) : between s [] = s.
Proof. unfold between. cbn [List.length]. now rewrite Nat.sub_0_r, firstn_all. Qed.

(** Passing over the characters of a match. *)
Lemma replace_from_skip (r : regexp) (f : MatchResult -> jsstring) (m e : jsstring) :
  replace_from r f (m ++ e) (List.length m) = replace_from r f e 0.
Proof.
  induction m as [|c m IH]; cbn [app List.length]; [reflexivity|].
  cbn [replace_from]. exact IH.
Qed.

(** [replace] at a position where the pattern matches a non-empty text. *)
Lemma replace_match (r : regexp) (f : MatchResult -> jsstring)
    (c : char) (m e : jsstring) (marks : list jsstring) :
  matcher r (c :: m ++ e) = Some (marks, e) ->
  replace (c :: m ++ e) r f =
  f (result_of (c :: m ++ e) (marks, e)) ++ replace e r f.
Proof.
  intros Hm. unfold replace. cbn [replace_from]. rewrite Hm.
  cbn [snd List.length].
  replace (S (List.length (m ++ e)) - List.length e)%nat
    with (S (List.length m)) by (rewrite length_app; lia).
  now rewrite replace_from_skip.
Qed.

(** [replace] at a position where the pattern does not match. *)
Lemma replace_keep (r : regexp) (f : MatchResult -> jsstring)
    (c : char) (s : jsstring) :
  matcher r (c :: s) = None ->
  replace (c :: s) r f = c :: replace s r f.
Proof.
  intros Hm. unfold replace. cbn [replace_from]. now rewrite Hm.
Qed.

End Engine.

(* ================================================================== *)
(** ** The CSI pattern                                                 *)
(* ================================================================== *)

(** Comparisons of characters with the bounds of the classes, by cases on
    the comparisons and linear arithmetic. *)
Ltac class_cases :=
  unfold is_param, is_intermediate, is_final, is_digit, accepts, ESC, LF, CR in *;
  repeat match goal with
    | |- context [N.leb ?a ?b] => destruct (N.leb_spec a b)
    | H : context [N.leb ?a ?b] |- _ => destruct (N.leb_spec a b)
    | |- context [N.eqb ?a ?b] => destruct (N.eqb_spec a b)
    | H : context [N.eqb ?a ?b] |- _ => destruct (N.eqb_spec a b)
    end;
  cbn in *; try discriminate; try reflexivity; try lia.

Section Csi.

Lemma matcher_one (a : atom) (r : regexp) (s : jsstring) :
  matcher (One a :: r) s =
  match s with
  | c :: s' => if accepts a c then matcher r s' else None
  | [] => None
  end.
Proof. reflexivity. Qed.

Lemma matcher_open (r : regexp) (s : jsstring) :
  matcher (Open :: r) s =
  match matcher r s with
  | Some (marks, e) => Some (s :: marks, e)
  | None => None
  end.
Proof. reflexivity. Qed.

Lemma matcher_close (r : regexp) (s : jsstring) :
  matcher (Close :: r) s =
  match matcher r s with
  | Some (marks, e) => Some (s :: marks, e)
  | None => None
  end.
Proof. reflexivity. Qed.

(** The three classes are pairwise disjoint, and none holds the escape
    character. *)
Lemma param_not_intermediate c : is_param c = true -> is_intermediate c = false.
Proof. class_cases. Qed.

Lemma param_not_final c : is_param c = true -> is_final c = false.
Proof. class_cases. Qed.

Lemma intermediate_not_final c : is_intermediate c = true -> is_final c = false.
Proof. class_cases. Qed.

Lemma intermediate_not_param c : is_intermediate c = true -> is_param c = false.
Proof. class_cases. Qed.

Lemma final_not_param c : is_final c = true -> is_param c = false.
Proof. class_cases. Qed.

Lemma final_not_intermediate c : is_final c = true -> is_intermediate c = false.
Proof. class_cases. Qed.

Lemma matcher_csi_tail (t : jsstring) :
  matcher csi_tail t =
  match drop_while is_intermediate (drop_while is_param t) with
  | f :: e => if is_final f then Some ([e], e) else None
  | [] => None
  end.
Proof.
  unfold csi_tail.
  rewrite matcher_star_greedy.
  2:{ intros c s Hc. rewrite matcher_star, matcher_one.
      change (accepts (Range 0x20 0x2f) c) with (is_intermediate c).
      change (accepts (Range 0x40 0x7e) c) with (is_final c).
      change (accepts (Range 0x30 0x3f) c) with (is_param c) in Hc.
      now rewrite (param_not_intermediate c Hc), (param_not_final c Hc). }
  rewrite matcher_star_greedy.
  2:{ intros c s Hc. rewrite matcher_one.
      change (accepts (Range 0x40 0x7e) c) with (is_final c).
      change (accepts (Range 0x20 0x2f) c) with (is_intermediate c) in Hc.
      now rewrite (intermediate_not_final c Hc). }
  rewrite matcher_one.
  change (accepts (Range 0x30 0x3f)) with is_param.
  change (accepts (Range 0x20 0x2f)) with is_intermediate.
  destruct (drop_while is_intermediate (drop_while is_param t)) as [|f e];
    [reflexivity|].
  change (accepts (Range 0x40 0x7e) f) with (is_final f).
  destruct (is_final f); reflexivity.
Qed.

(** The backtracking matcher on the CSI pattern is the single-pass
    scanner. *)
Lemma matcher_csi (s : jsstring) :
  matcher _csiRegExp s =
  match recognize s with
  | Some (code, e) => Some ([code ++ e; e], e)
  | None => None
  end.
Proof.
  change _csiRegExp with (One (Chr 0x1b) :: One (Chr 0x5b) :: Open :: csi_tail).
  unfold recognize.
  destruct s as [|c1 [|c2 t]]; rewrite matcher_one; [reflexivity| |].
  - cbn [accepts]. destruct (c1 =? 0x1b); reflexivity.
  - cbn [accepts]. change ESC with 0x1b.
    destruct (c1 =? 0x1b); [|reflexivity].
    rewrite matcher_one. cbn [accepts andb].
    destruct (c2 =? 0x5b); [|reflexivity].
    rewrite matcher_open, matcher_csi_tail.
    pose proof (take_drop_while is_param t) as Hp.
    pose proof (take_drop_while is_intermediate (drop_while is_param t)) as Hi.
    destruct (drop_while is_intermediate (drop_while is_param t)) as [|f e];
      [reflexivity|].
    destruct (is_final f); [|reflexivity].
    do 3 f_equal.
    rewrite <- Hp at 1. rewrite <- Hi at 1.
    now rewrite <- !app_assoc.
Qed.

(** The scanner accepts exactly the texts that begin with a sequence of the
    grammar, and splits them after that sequence. *)
Lemma recognize_spec (s code e : jsstring) :
  recognize s = Some (code, e) <->
  s = ESC :: 0x5b :: code ++ e /\ CsiCode code.
Proof.
  split.
  - unfold recognize.
    destruct s as [|c1 [|c2 t]]; try discriminate.
    destruct (N.eqb_spec c1 ESC) as [->|]; [|discriminate].
    destruct (N.eqb_spec c2 0x5b) as [->|]; [|discriminate].
    cbn [andb].
    pose proof (take_drop_while is_param t) as Hp.
    pose proof (take_drop_while is_intermediate (drop_while is_param t)) as Hi.
    destruct (drop_while is_intermediate (drop_while is_param t)) as [|f e'];
      [discriminate|].
    destruct (is_final f) eqn:Hf; [|discriminate].
    intros [= <- <-]. split.
    + do 2 f_equal. rewrite <- Hp at 1. rewrite <- Hi at 1.
      now rewrite <- !app_assoc.
    + exists (take_while is_param t),
             (take_while is_intermediate (drop_while is_param t)), f.
      now rewrite !take_while_all.
  - intros [-> (ps & ims & f & -> & Hps & Hims & Hf)].
    unfold recognize. rewrite !N.eqb_refl. cbn [andb].
    assert (Hsplit : (ps ++ ims ++ [f]) ++ e = ps ++ ims ++ f :: e)
      by now rewrite <- !app_assoc.
    assert (Hhead : exists x t', ims ++ f :: e = x :: t' /\ is_param x = false).
    { destruct ims as [|i ims'].
      - exists f, e. split; [reflexivity | now apply final_not_param].
      - cbn in Hims. apply andb_true_iff in Hims as [Hi _].
        exists i, (ims' ++ f :: e). split; [reflexivity|].
        now apply intermediate_not_param. }
    destruct Hhead as (x & t' & Hx & Hnp).
    rewrite Hsplit, Hx.
    rewrite (take_while_run is_param ps x t' Hps Hnp).
    rewrite (drop_while_run is_param ps x t' Hps Hnp).
    rewrite <- Hx.
    rewrite (take_while_run is_intermediate ims f e Hims
               (final_not_intermediate f Hf)).
    rewrite (drop_while_run is_intermediate ims f e Hims
               (final_not_intermediate f Hf)).
    now rewrite Hf.
Qed.

Lemma recognize_prefix (m rest : jsstring) :
  CsiSequence m -> exists code, m = ESC :: 0x5b :: code /\
                                recognize (m ++ rest) = Some (code, rest).
Proof.
  intros (code & -> & Hcode). exists code. split; [reflexivity|].
  apply recognize_spec. split; [reflexivity | exact Hcode].
Qed.

Lemma recognize_sequence (s code e : jsstring) :
  recognize s = Some (code, e) ->
  CsiSequence (ESC :: 0x5b :: code) /\ s = (ESC :: 0x5b :: code) ++ e.
Proof.
  intros H. apply recognize_spec in H as [-> Hcode].
  split; [now exists code | reflexivity].
Qed.

(** The two equations of a global [replace] with the CSI pattern. *)
Lemma replace_csi_match (f : MatchResult -> jsstring) (s code e : jsstring) :
  recognize s = Some (code, e) ->
  replace s _csiRegExp f =
  f {| matched := ESC :: 0x5b :: code; group1 := Some code |} ++
  replace e _csiRegExp f.
Proof.
  intros H. pose proof (matcher_csi s) as Hm. rewrite H in Hm.
  apply recognize_spec in H as [-> _].
  change (ESC :: 0x5b :: code ++ e) with (ESC :: (0x5b :: code) ++ e) in *.
  rewrite (replace_match _ f _ _ _ _ Hm).
  unfold result_of. cbn [fst snd].
  change (ESC :: (0x5b :: code) ++ e) with ((ESC :: 0x5b :: code) ++ e).
  now rewrite !between_app.
Qed.

Lemma replace_csi_keep (f : MatchResult -> jsstring) (c : char) (s : jsstring) :
  recognize (c :: s) = None ->
  replace (c :: s) _csiRegExp f = c :: replace s _csiRegExp f.
Proof.
  intros H. apply replace_keep. rewrite matcher_csi. now rewrite H.
Qed.

Lemma replace_csi_nil (f : MatchResult -> jsstring) :
  replace [] _csiRegExp f = [].
Proof. reflexivity. Qed.

(** Induction along the scan: a text is empty, or starts with a character
    that is kept, or starts with a CSI sequence. *)
Lemma csi_scan_ind (P : jsstring -> Prop) :
  P [] ->
  (forall c s, recognize (c :: s) = None -> P s -> P (c :: s)) ->
  (forall code e, recognize (ESC :: 0x5b :: code ++ e) = Some (code, e) ->
                  P e -> P (ESC :: 0x5b :: code ++ e)) ->
  forall s, P s.
Proof.
  intros Hnil Hkeep Hcsi s.
  remember (List.length s) as n eqn:Hn.
  revert s Hn. induction n as [n IH] using lt_wf_ind. intros s Hn.
  destruct s as [|c s]; [exact Hnil|].
  destruct (recognize (c :: s)) as [[code e]|] eqn:Hr.
  - pose proof Hr as Hr'. apply recognize_spec in Hr' as [Heq _].
    rewrite Heq in *. apply Hcsi; [exact Hr|].
    apply (IH (List.length e)); [|reflexivity].
    subst n. cbn. rewrite length_app. lia.
  - apply Hkeep; [exact Hr|].
    apply (IH (List.length s)); [|reflexivity]. subst n. cbn. lia.
Qed.

End Csi.

(* ================================================================== *)
(** ** [removeCodes]                                                   *)
(* ================================================================== *)

Section RemoveCodes.

Lemma removeCodes_nil : removeCodes [] = [].
Proof. reflexivity. Qed.

Lemma removeCodes_csi (s code e : jsstring) :
  recognize s = Some (code, e) -> removeCodes s = removeCodes e.
Proof.
  intros H. unfold removeCodes, replace_str.
  now rewrite (replace_csi_match _ s code e H).
Qed.

Lemma removeCodes_keep (c : char) (s : jsstring) :
  recognize (c :: s) = None -> removeCodes (c :: s) = c :: removeCodes s.
Proof. intros H. unfold removeCodes, replace_str. now apply replace_csi_keep. Qed.

(** A position where no sequence of the grammar begins is a position where
    the scanner fails. *)
Lemma recognize_none (s : jsstring) :
  (forall m rest, CsiSequence m -> s <> m ++ rest) -> recognize s = None.
Proof.
  intros H. destruct (recognize s) as [[code e]|] eqn:Hr; [|reflexivity].
  apply recognize_sequence in Hr as [Hm Heq]. now elim (H _ e Hm).
Qed.

Lemma recognize_none_inv (s : jsstring) :
  recognize s = None -> forall m rest, CsiSequence m -> s <> m ++ rest.
Proof.
  intros Hr m rest Hm ->.
  destruct (recognize_prefix m rest Hm) as (code & _ & H). congruence.
Qed.

Lemma NoCsiSequence_cons (c : char) (s : jsstring) :
  NoCsiSequence (c :: s) -> recognize (c :: s) = None /\ NoCsiSequence s.
Proof.
  intros H. split.
  - apply recognize_none. intros m rest Hm Heq.
    apply (H [] m rest); [exact Heq | exact Hm].
  - intros pre m post Heq. apply (H (c :: pre) m post). now rewrite Heq.
Qed.

(** A text without CSI sequences is a fixed point of [removeCodes]. *)
Lemma removeCodes_fixed (s : jsstring) :
  NoCsiSequence s -> removeCodes s = s.
Proof.
  induction s as [|c s IH]; intros H; [reflexivity|].
  apply NoCsiSequence_cons in H as [Hr Hs].
  rewrite (removeCodes_keep c s Hr). now rewrite (IH Hs).
Qed.

(** A CSI sequence starts with the escape character, so a text without it
    has no CSI sequence. *)
Lemma no_escape_NoCsiSequence (s : jsstring) :
  ~ In ESC s -> NoCsiSequence s.
Proof.
  intros Hesc pre m post -> (code & -> & _). apply Hesc.
  apply in_or_app. right. now left.
Qed.

Lemma EveryEscapeBeginsCsi_cons (c : char) (s : jsstring) :
  EveryEscapeBeginsCsi (c :: s) -> EveryEscapeBeginsCsi s.
Proof. intros H pre post Heq. apply (H (c :: pre) post). now rewrite Heq. Qed.

Lemma EveryEscapeBeginsCsi_app (m s : jsstring) :
  EveryEscapeBeginsCsi (m ++ s) -> EveryEscapeBeginsCsi s.
Proof.
  induction m as [|c m IH]; intros H; [exact H|].
  apply IH. exact (EveryEscapeBeginsCsi_cons c _ H).
Qed.

(** When every escape character begins a CSI sequence, none is left. *)
Lemma removeCodes_no_escape (s : jsstring) :
  EveryEscapeBeginsCsi s -> ~ In ESC (removeCodes s).
Proof.
  induction s as [|c s Hr IH|code e Hr IH] using csi_scan_ind; intros H.
  - intros [].
  - rewrite (removeCodes_keep c s Hr). intros [->|Hin].
    + destruct (H [] s eq_refl) as (m & rest & Hm & Heq).
      now apply (recognize_none_inv _ Hr m rest Hm).
    + exact (IH (EveryEscapeBeginsCsi_cons c s H) Hin).
  - rewrite (removeCodes_csi _ code e Hr). apply IH.
    apply (EveryEscapeBeginsCsi_app (ESC :: 0x5b :: code)). exact H.
Qed.

(** Conversely, an escape character that begins no CSI sequence is left. *)
Lemma CsiCode_no_escape (code : jsstring) : CsiCode code -> ~ In ESC code.
Proof.
  intros (ps & ims & f & -> & Hps & Hims & Hf) Hin.
  rewrite forallb_forall in Hps, Hims.
  apply in_app_or in Hin as [Hin|Hin]; [now specialize (Hps _ Hin)|].
  apply in_app_or in Hin as [Hin|[Heq|[]]]; [now specialize (Hims _ Hin)|].
  subst f. discriminate.
Qed.

Lemma split_after (x : char) (a e pre post : jsstring) :
  ~ In x a -> pre ++ x :: post = a ++ e ->
  exists pre', pre = a ++ pre' /\ e = pre' ++ x :: post.
Proof.
  revert pre. induction a as [|c a IH]; intros pre Hnot Heq.
  - now exists pre.
  - destruct pre as [|p pre]; cbn [app] in Heq.
    + injection Heq as -> _. elim Hnot. now left.
    + injection Heq as -> Heq.
      destruct (IH pre) as (pre' & -> & ->); [|exact Heq|now exists pre'].
      intros Hin. apply Hnot. now right.
Qed.

Lemma removeCodes_escape_left (s : jsstring) :
  ~ In ESC (removeCodes s) -> EveryEscapeBeginsCsi s.
Proof.
  induction s as [|c s Hr IH|code e Hr IH] using csi_scan_ind; intros H.
  - intros pre post Heq. now destruct pre.
  - rewrite (removeCodes_keep c s Hr) in H.
    intros [|d pre] post Heq; cbn [app] in Heq.
    + injection Heq as -> _. elim H. now left.
    + injection Heq as _ ->. apply (fun Hs => IH Hs pre post eq_refl).
      intros Hin. apply H. now right.
  - rewrite (removeCodes_csi _ code e Hr) in H.
    apply recognize_sequence in Hr as [Hm _].
    intros [|d pre] post Heq; cbn [app] in Heq.
    + injection Heq as <-. now exists (ESC :: 0x5b :: code), e.
    + injection Heq as _ Heq.
      change (0x5b :: code ++ e) with ((0x5b :: code) ++ e) in Heq.
      symmetry in Heq. apply split_after in Heq as (pre' & _ & ->).
      * now apply (IH H pre' post).
      * destruct Hm as (code' & [= <-] & Hcode).
        intros [Hin|Hin]; [discriminate|].
        now apply (CsiCode_no_escape code Hcode).
Qed.

(** The boolean check is sound for the property. *)
Lemma escapes_begin_csi_sound (s : jsstring) :
  escapes_begin_csi s = true -> EveryEscapeBeginsCsi s.
Proof.
  induction s as [|c s IH]; intros H pre post Heq.
  - now destruct pre.
  - cbn [escapes_begin_csi] in H. apply andb_true_iff in H as [Hc Hs].
    destruct pre as [|d pre]; cbn in Heq.
    + injection Heq as -> ->. rewrite N.eqb_refl in Hc. cbn [negb orb] in Hc.
      destruct (recognize (ESC :: post)) as [[code e]|] eqn:Hr; [|discriminate].
      apply recognize_sequence in Hr as [Hm Hpost].
      now exists (ESC :: 0x5b :: code), e.
    + injection Heq as -> ->. exact (IH Hs pre post eq_refl).
Qed.

(** [exec] fails when the matcher fails at every position. *)
Lemma exec_none (r : regexp) (s : jsstring) :
  exec r s = None -> forall pre t, s = pre ++ t -> matcher r t = None.
Proof.
  induction s as [|c s IH]; cbn [exec].
  - destruct (matcher r []) eqn:Hm; [discriminate|].
    intros _ pre t Heq. symmetry in Heq.
    apply app_eq_nil in Heq as [_ ->]. exact Hm.
  - destruct (matcher r (c :: s)) eqn:Hm; [discriminate|].
    intros He [|d pre] t Heq; cbn in Heq.
    + now subst t.
    + injection Heq as _ ->. exact (IH He pre t eq_refl).
Qed.

Lemma exec_none_NoCsiSequence (s : jsstring) :
  exec _csiRegExp s = None -> NoCsiSequence s.
Proof.
  intros He pre m post Heq Hm.
  pose proof (exec_none _ _ He pre (m ++ post) Heq) as Hnone.
  rewrite matcher_csi in Hnone.
  destruct (recognize_prefix m post Hm) as (code & _ & Hr).
  now rewrite Hr in Hnone.
Qed.

(** The scan of [removeCodes] is the deletion of the grammar's sequences. *)
Lemma removeCodes_Deleted (s : jsstring) : Deleted s (removeCodes s).
Proof.
  induction s as [|c s Hr IH|code e Hr IH] using csi_scan_ind.
  - constructor.
  - rewrite (removeCodes_keep c s Hr).
    apply Deleted_keep; [|exact IH]. now apply recognize_none_inv.
  - rewrite (removeCodes_csi _ code e Hr).
    apply recognize_sequence in Hr as [Hm _].
    exact (Deleted_csi (ESC :: 0x5b :: code) e _ Hm IH).
Qed.

Lemma Deleted_removeCodes (s out : jsstring) :
  Deleted s out -> out = removeCodes s.
Proof.
  induction 1 as [|m rest out Hm _ IH|c s out Hno _ IH].
  - reflexivity.
  - destruct (recognize_prefix m rest Hm) as (code & _ & Hr).
    now rewrite (removeCodes_csi _ code rest Hr).
  - rewrite (removeCodes_keep c s (recognize_none _ Hno)). now rewrite IH.
Qed.

End RemoveCodes.

(* ================================================================== *)
(** ** [formatForTests]                                                *)
(* ================================================================== *)

Section FormatForTests.

Lemma formatForTests_nil : formatForTests [] None = [].
Proof. reflexivity. Qed.

Lemma formatForTests_csi (s code e : jsstring) :
  recognize s = Some (code, e) ->
  formatForTests s None =
  replacer (ESC :: 0x5b :: code) code ++ formatForTests e None.
Proof.
  intros H. unfold formatForTests. cbn [truthy_flag encodeNewlines].
  now rewrite (replace_csi_match _ s code e H).
Qed.

Lemma formatForTests_keep (c : char) (s : jsstring) :
  recognize (c :: s) = None ->
  formatForTests (c :: s) None = c :: formatForTests s None.
Proof.
  intros H. unfold formatForTests. cbn [truthy_flag encodeNewlines].
  now apply replace_csi_keep.
Qed.

(** A text without CSI sequences is a fixed point of [formatForTests]. *)
Lemma formatForTests_fixed (s : jsstring) :
  NoCsiSequence s -> formatForTests s None = s.
Proof.
  induction s as [|c s IH]; intros H; [reflexivity|].
  apply NoCsiSequence_cons in H as [Hr Hs].
  rewrite (formatForTests_keep c s Hr). now rewrite (IH Hs).
Qed.

(** *** An escape character ends every scan

    No class of the pattern holds the escape character, so an attempt that
    started before an escape character never reaches past it. *)

Lemma take_while_stop (p : char -> bool) (t : jsstring) x s :
  p x = false -> take_while p (t ++ x :: s) = take_while p t.
Proof.
  intros Hx. induction t as [|c t IH]; cbn.
  - now rewrite Hx.
  - destruct (p c); [now rewrite IH | reflexivity].
Qed.

Lemma drop_while_stop (p : char -> bool) (t : jsstring) x s :
  p x = false -> drop_while p (t ++ x :: s) = drop_while p t ++ x :: s.
Proof.
  intros Hx. induction t as [|c t IH]; cbn.
  - now rewrite Hx.
  - destruct (p c); [exact IH | reflexivity].
Qed.

Lemma recognize_before_escape (c : char) (p s : jsstring) :
  recognize ((c :: p) ++ ESC :: s) =
  match recognize (c :: p) with
  | Some (code, e) => Some (code, e ++ ESC :: s)
  | None => None
  end.
Proof.
  destruct p as [|c2 t]; cbn [app].
  - unfold recognize. destruct (c =? ESC); reflexivity.
  - unfold recognize.
    destruct ((c =? ESC) && (c2 =? 0x5b)); [|reflexivity].
    rewrite (take_while_stop is_param t ESC s eq_refl).
    rewrite (drop_while_stop is_param t ESC s eq_refl).
    rewrite (take_while_stop is_intermediate _ ESC s eq_refl).
    rewrite (drop_while_stop is_intermediate _ ESC s eq_refl).
    destruct (drop_while is_intermediate (drop_while is_param t)) as [|f e];
      [reflexivity|].
    cbn [app]. destruct (is_final f); reflexivity.
Qed.

Lemma replace_csi_before_escape (f : MatchResult -> jsstring) (p s : jsstring) :
  replace (p ++ ESC :: s) _csiRegExp f =
  replace p _csiRegExp f ++ replace (ESC :: s) _csiRegExp f.
Proof.
  induction p as [|c p Hr IH|code e Hr IH] using csi_scan_ind.
  - reflexivity.
  - pose proof (recognize_before_escape c p s) as Hr'. rewrite Hr in Hr'.
    cbn [app] in *.
    rewrite (replace_csi_keep f c _ Hr'), (replace_csi_keep f c _ Hr).
    now rewrite IH.
  - pose proof (recognize_before_escape ESC (0x5b :: code ++ e) s) as Hr'.
    rewrite Hr in Hr'.
    rewrite (replace_csi_match f _ _ _ Hr'), (replace_csi_match f _ _ _ Hr).
    rewrite IH. now rewrite <- app_assoc.
Qed.

Lemma formatForTests_before_escape (p s : jsstring) :
  formatForTests (p ++ ESC :: s) None =
  formatForTests p None ++ formatForTests (ESC :: s) None.
Proof.
  unfold formatForTests. cbn [truthy_flag encodeNewlines].
  apply replace_csi_before_escape.
Qed.

Lemma removeCodes_before_escape (p s : jsstring) :
  removeCodes (p ++ ESC :: s) = removeCodes p ++ removeCodes (ESC :: s).
Proof. apply replace_csi_before_escape. Qed.

(** What [formatForTests] does with a CSI sequence anywhere in a text. *)
Lemma formatForTests_sequence (pre code rest : jsstring) :
  CsiCode code ->
  formatForTests (pre ++ ESC :: 0x5b :: code ++ rest) None =
  formatForTests pre None ++
  replacer (ESC :: 0x5b :: code) code ++ formatForTests rest None.
Proof.
  intros Hcode. rewrite formatForTests_before_escape. f_equal.
  apply formatForTests_csi. apply recognize_spec. now split.
Qed.

(** *** Newlines *)

Lemma replace_one_char (x : char) (by_ t : jsstring) :
  replace_str t [One (Chr x)] by_ =
  flat_map (fun c => if c =? x then by_ else [c]) t.
Proof.
  unfold replace_str, replace.
  induction t as [|c t IH]; [reflexivity|].
  cbn [replace_from flat_map]. rewrite matcher_one. cbn [accepts matcher].
  destruct (c =? x).
  - cbn [snd List.length]. rewrite Nat.sub_succ_l, Nat.sub_diag by lia.
    now rewrite IH.
  - now rewrite IH.
Qed.

Lemma encode_newline_two_passes (t : jsstring) :
  replace_str (replace_str t _backslashNRegExp (lit "[n]"))
              _backslashRRegExp (lit "[r]") =
  flat_map encode_newline t.
Proof.
  unfold _backslashNRegExp, _backslashRRegExp. rewrite !replace_one_char.
  induction t as [|c t IH]; [reflexivity|].
  cbn [flat_map]. rewrite flat_map_app, IH. f_equal.
  unfold encode_newline. change LF with 0x0a. change CR with 0x0d.
  destruct (N.eqb_spec c 0x0a) as [->|Hn]; [reflexivity|].
  cbn [flat_map]. now rewrite app_nil_r.
Qed.

(** The options only decide whether the newline pass runs. *)
Lemma formatForTests_options (s : jsstring) (o : IAnsiEscapeConvertForTestsOptions) :
  formatForTests s (Some o) =
  if truthy_flag (encodeNewlines o)
  then flat_map encode_newline (formatForTests s None)
  else formatForTests s None.
Proof.
  unfold formatForTests. cbn [truthy_flag encodeNewlines].
  destruct (truthy_flag (encodeNewlines o)); [|reflexivity].
  apply encode_newline_two_passes.
Qed.

End FormatForTests.

(* ================================================================== *)
(** ** The SGR pattern and the table                                   *)
(* ================================================================== *)

Section Sgr.

Lemma digit_not_m c : is_digit c = true -> (c =? 0x6d) = false.
Proof. class_cases. Qed.

Lemma digit_is_param c : is_digit c = true -> is_param c = true.
Proof. class_cases. Qed.

(** The backtracking matcher on the SGR pattern: a digit, the rest of the
    run of digits, and ["m"]. *)
Lemma matcher_sgr (s : jsstring) :
  matcher _sgrRegExp s =
  match s with
  | c :: s' =>
      if is_digit c then
        match drop_while is_digit s' with
        | x :: e => if x =? 0x6d then Some ([s; x :: e], e) else None
        | [] => None
        end
      else None
  | [] => None
  end.
Proof.
  change _sgrRegExp with
    [Open; One (Range 0x30 0x39); Star (Range 0x30 0x39); Close; One (Chr 0x6d)].
  rewrite matcher_open, matcher_one.
  destruct s as [|c s']; [reflexivity|].
  change (accepts (Range 0x30 0x39) c) with (is_digit c).
  destruct (is_digit c); [|reflexivity].
  rewrite matcher_star_greedy.
  2:{ intros d t Hd. rewrite matcher_close, matcher_one. cbn [accepts].
      change (accepts (Range 0x30 0x39) d) with (is_digit d) in Hd.
      now rewrite (digit_not_m d Hd). }
  rewrite matcher_close, matcher_one.
  change (accepts (Range 0x30 0x39)) with is_digit.
  destruct (drop_while is_digit s') as [|x e]; [reflexivity|].
  cbn [accepts matcher]. destruct (x =? 0x6d); reflexivity.
Qed.

Lemma matcher_sgr_digits (ds e : jsstring) :
  ds <> [] -> forallb is_digit ds = true ->
  matcher _sgrRegExp (ds ++ 0x6d :: e) = Some ([ds ++ 0x6d :: e; 0x6d :: e], e).
Proof.
  intros Hne Hds. rewrite matcher_sgr.
  destruct ds as [|d ds]; [contradiction|].
  cbn [forallb] in Hds. apply andb_true_iff in Hds as [Hd Hds].
  cbn [app]. rewrite Hd.
  now rewrite (drop_while_run is_digit ds 0x6d e Hds eq_refl).
Qed.

Lemma matcher_sgr_inv (s e : jsstring) (marks : list jsstring) :
  matcher _sgrRegExp s = Some (marks, e) ->
  exists ds, ds <> [] /\ forallb is_digit ds = true /\
             s = ds ++ 0x6d :: e /\ marks = [s; 0x6d :: e].
Proof.
  rewrite matcher_sgr.
  destruct s as [|c s']; [discriminate|].
  destruct (is_digit c) eqn:Hc; [|discriminate].
  pose proof (take_drop_while is_digit s') as Hsplit.
  destruct (drop_while is_digit s') as [|x e']; [discriminate|].
  destruct (N.eqb_spec x 0x6d) as [->|]; [|discriminate].
  intros [= <- <-].
  exists (c :: take_while is_digit s'). repeat split.
  - discriminate.
  - cbn [forallb]. now rewrite Hc, take_while_all.
  - cbn [app]. now rewrite Hsplit.
Qed.

(** *** The leftmost match *)

Lemma exec_here (r : regexp) (s : jsstring) m :
  matcher r s = Some m -> exec r s = Some (result_of s m).
Proof. intros H. destruct s; cbn [exec]; now rewrite H. Qed.

Lemma exec_skip (r : regexp) (pre t : jsstring) :
  (forall p1 p2, pre = p1 ++ p2 -> p2 <> [] -> matcher r (p2 ++ t) = None) ->
  exec r (pre ++ t) = exec r t.
Proof.
  induction pre as [|c pre IH]; intros H; [reflexivity|].
  cbn [app exec].
  pose proof (H [] (c :: pre) eq_refl ltac:(discriminate)) as Hm.
  cbn [app] in Hm. rewrite Hm.
  apply IH. intros p1 p2 -> Hne. now apply (H (c :: p1) p2).
Qed.

Lemma exec_inv (r : regexp) (s : jsstring) (res : MatchResult) :
  exec r s = Some res ->
  exists pre t m,
    s = pre ++ t /\ matcher r t = Some m /\ res = result_of t m /\
    forall p1 p2, pre = p1 ++ p2 -> p2 <> [] -> matcher r (p2 ++ t) = None.
Proof.
  induction s as [|c s IH]; cbn [exec].
  - destruct (matcher r []) as [m|] eqn:Hm; [|discriminate].
    intros [= <-]. exists [], [], m. repeat split; try assumption.
    intros p1 p2 Heq Hne. symmetry in Heq.
    apply app_eq_nil in Heq as [_ ->]. contradiction.
  - destruct (matcher r (c :: s)) as [m|] eqn:Hm.
    + intros [= <-]. exists [], (c :: s), m. repeat split; try assumption.
      intros p1 p2 Heq Hne. symmetry in Heq.
      apply app_eq_nil in Heq as [_ ->]. contradiction.
    + intros He. destruct (IH He) as (pre & t & m & -> & Ht & -> & Hleft).
      exists (c :: pre), t, m. repeat split; try assumption.
      intros [|d p1] p2 Heq Hne; cbn [app] in Heq.
      * subst p2. exact Hm.
      * injection Heq as _ ->. now apply (Hleft p1 p2).
Qed.

(** *** Lists that end in a given character *)

Lemma split_last_unique (x : char) (a b e : jsstring) :
  ~ In x a -> a ++ [x] = b ++ x :: e -> b = a /\ e = [].
Proof.
  revert b. induction a as [|c a IH]; intros b Hnot Heq.
  - destruct b as [|y b]; cbn in Heq.
    + injection Heq as <-. now split.
    + injection Heq as _ Heq. now destruct b.
  - destruct b as [|y b]; cbn in Heq.
    + injection Heq as -> _. elim Hnot. now left.
    + injection Heq as -> Heq.
      destruct (IH b) as [-> ->]; [|exact Heq|now split].
      intros Hin. apply Hnot. now right.
Qed.

Lemma forallb_last (p : char -> bool) (xs : jsstring) d :
  xs <> [] -> forallb p xs = true -> p (last xs d) = true.
Proof.
  induction xs as [|c xs IH]; intros Hne H; [contradiction|].
  cbn [forallb] in H. apply andb_true_iff in H as [Hc Hxs].
  destruct xs as [|c' xs]; [exact Hc|].
  apply IH; [discriminate | exact Hxs].
Qed.

Lemma last_app_nonempty (xs ys : jsstring) d :
  ys <> [] -> last (xs ++ ys) d = last ys d.
Proof.
  intros Hne. induction xs as [|c xs IH]; [reflexivity|].
  cbn [app]. destruct (xs ++ ys) eqn:Heq.
  - apply app_eq_nil in Heq as [_ ->]. contradiction.
  - exact IH.
Qed.

(** The characters of a CSI code before its final byte are not final
    bytes; in particular none of them is ["m"]. *)
Lemma CsiCode_body (body : jsstring) (f : char) :
  CsiCode (body ++ [f]) ->
  is_final f = true /\ forall c, In c body -> is_final c = false.
Proof.
  intros (ps & ims & f' & Heq & Hps & Hims & Hf).
  rewrite app_assoc in Heq. apply app_inj_tail in Heq as [-> ->].
  split; [exact Hf|].
  intros c Hin. apply in_app_or in Hin as [Hin|Hin].
  - apply param_not_final. rewrite forallb_forall in Hps. now apply Hps.
  - apply intermediate_not_final. rewrite forallb_forall in Hims. now apply Hims.
Qed.

Lemma CsiCode_params (ps : jsstring) (f : char) :
  forallb is_param ps = true -> is_final f = true -> CsiCode (ps ++ [f]).
Proof. intros Hps Hf. now exists ps, [], f. Qed.

End Sgr.

Section Translation.

(** Every name of the table is a non-empty text without newlines. *)
Lemma friendly_name_plain (x : option N) (name : jsstring) :
  _tryGetSgrFriendlyName x = Some name ->
  truthy_string name = true /\ flat_map encode_newline name = name.
Proof.
  destruct x as [[|p]|]; cbn; try discriminate.
  repeat (destruct p as [p|p|]; cbn; try discriminate);
    intros [= <-]; split; reflexivity.
Qed.

Lemma parseInt_digits (ds : jsstring) :
  ds <> [] -> forallb is_digit ds = true ->
  parseInt ds = Some (parse_digits 0 ds).
Proof.
  intros Hne Hds. destruct ds as [|d ds]; [contradiction|].
  cbn [forallb] in Hds. apply andb_true_iff in Hds as [Hd _].
  unfold parseInt. now rewrite Hd.
Qed.

(** Leading zeros do not change the number that is read. *)
Lemma parseInt_leading_zeros (k : nat) (ds : jsstring) :
  ds <> [] -> forallb is_digit ds = true ->
  parseInt (repeat 0x30 k ++ ds) = parseInt ds.
Proof.
  intros Hne Hds. rewrite (parseInt_digits ds Hne Hds).
  rewrite parseInt_digits.
  - f_equal. induction k as [|k IH]; [reflexivity|]. exact IH.
  - destruct k; [exact Hne | discriminate].
  - rewrite forallb_app, Hds, andb_true_r.
    induction k as [|k IH]; [reflexivity | exact IH].
Qed.

(** The leftmost match of the SGR pattern in a text that ends in a run of
    digits and ["m"], when ["m"] occurs nowhere before and the run is not
    preceded by a digit: it is that run with its ["m"]. *)
Lemma exec_sgr_trailing (before ds : jsstring) :
  (forall c, In c before -> c <> 0x6d) ->
  is_digit (last before 0x3b) = false ->
  ds <> [] -> forallb is_digit ds = true ->
  exec _sgrRegExp (before ++ ds ++ [0x6d]) =
  Some {| matched := ds ++ [0x6d]; group1 := Some ds |}.
Proof.
  intros Hm Hlast Hne Hds.
  rewrite exec_skip.
  - rewrite (exec_here _ _ _ (matcher_sgr_digits ds [] Hne Hds)).
    unfold result_of. cbn [fst snd].
    now rewrite between_nil, between_app.
  - intros p1 p2 -> Hp2.
    destruct (matcher _sgrRegExp (p2 ++ ds ++ [0x6d])) as [[marks e]|] eqn:Hmatch;
      [|reflexivity].
    apply matcher_sgr_inv in Hmatch as (ds' & _ & Hds' & Heq & _).
    rewrite app_assoc in Heq.
    apply split_last_unique in Heq as [-> _].
    + rewrite forallb_app in Hds'. apply andb_true_iff in Hds' as [Hp2d _].
      rewrite (last_app_nonempty p1 p2 _ Hp2) in Hlast.
      rewrite (forallb_last is_digit p2 _ Hp2 Hp2d) in Hlast. discriminate.
    + intros Hin. apply in_app_or in Hin as [Hin|Hin].
      * apply (Hm 0x6d); [|reflexivity]. apply in_or_app. now right.
      * rewrite forallb_forall in Hds. now specialize (Hds _ Hin).
Qed.

Lemma sgrParameterName_of_trailing (before ds name : jsstring) :
  (forall c, In c before -> c <> 0x6d) ->
  is_digit (last before 0x3b) = false ->
  ds <> [] -> forallb is_digit ds = true ->
  _tryGetSgrFriendlyName (parseInt ds) = Some name ->
  sgrParameterName_of (before ++ ds ++ [0x6d]) = Some name.
Proof.
  intros Hm Hlast Hne Hds Hname.
  unfold sgrParameterName_of, match_.
  rewrite (exec_sgr_trailing before ds Hm Hlast Hne Hds).
  cbn [csiCode_of group1]. rewrite Hname.
  now destruct (friendly_name_plain _ _ Hname) as [-> _].
Qed.

(** Conversely, a friendly name only comes from such a trailing run. *)
Lemma sgrParameterName_of_inv (code name : jsstring) :
  CsiCode code ->
  sgrParameterName_of code = Some name ->
  exists before ds,
    code = before ++ ds ++ [0x6d] /\
    is_digit (last before 0x3b) = false /\
    ds <> [] /\ forallb is_digit ds = true /\
    _tryGetSgrFriendlyName (parseInt ds) = Some name.
Proof.
  intros Hcode. unfold sgrParameterName_of, match_.
  destruct (exec _sgrRegExp code) as [res|] eqn:He; [|discriminate].
  apply exec_inv in He as (pre & t & [marks e] & -> & Ht & -> & Hleft).
  pose proof Ht as Ht'.
  apply matcher_sgr_inv in Ht' as (ds & Hne & Hds & -> & ->).
  unfold result_of. cbn [fst snd csiCode_of group1].
  rewrite between_app.
  destruct (_tryGetSgrFriendlyName (parseInt ds)) as [nm|] eqn:Hname;
    [|discriminate].
  destruct (truthy_string nm); [|discriminate].
  intros [= ->].
  assert (He : e = []).
  { destruct Hcode as (ps & ims & f & Heq & Hps & Hims & Hf).
    destruct e as [|x e0]; [reflexivity|]. exfalso.
    destruct (@exists_last _ (x :: e0)) as (e' & z & Hez); [discriminate|].
    rewrite Hez in Heq. clear Hez.
    { replace (pre ++ ds ++ 0x6d :: e' ++ [z])
        with ((pre ++ ds ++ 0x6d :: e') ++ [z]) in Heq
        by now rewrite <- !app_assoc.
      rewrite (app_assoc ps ims [f]) in Heq.
      apply app_inj_tail in Heq as [Heq _].
      assert (Hin : In 0x6d (ps ++ ims)).
      { rewrite <- Heq. apply in_or_app. right. apply in_or_app. right. now left. }
      apply in_app_or in Hin as [Hin|Hin].
      + rewrite forallb_forall in Hps. now specialize (Hps _ Hin).
      + rewrite forallb_forall in Hims. now specialize (Hims _ Hin). } }
  subst e. exists pre, ds. repeat split; try assumption.
  destruct (is_digit (last pre 0x3b)) eqn:Hlast; [|reflexivity].
  exfalso.
  destruct pre as [|x pre0]; [discriminate|].
  destruct (@exists_last _ (x :: pre0)) as (pre' & d & Hpre); [discriminate|].
  rewrite Hpre in *. clear Hpre.
  - rewrite last_last in Hlast.
    assert (Hnone : matcher _sgrRegExp ([d] ++ ds ++ [0x6d]) = None)
      by (apply (Hleft pre' [d] eq_refl); discriminate).
    assert (Hsome : matcher _sgrRegExp ((d :: ds) ++ [0x6d]) <> None).
    { rewrite (matcher_sgr_digits (d :: ds) []); [discriminate | discriminate |].
      cbn [forallb]. now rewrite Hlast, Hds. }
    exact (Hsome Hnone).
Qed.

(** The replacement of a CSI sequence holds no newline. *)
Lemma CsiCode_plain (code : jsstring) :
  CsiCode code -> flat_map encode_newline code = code.
Proof.
  intros (ps & ims & f & -> & Hps & Hims & Hf).
  assert (Hall : forall c, In c (ps ++ ims ++ [f]) -> encode_newline c = [c]).
  { intros c Hin. unfold encode_newline.
    rewrite forallb_forall in Hps, Hims.
    apply in_app_or in Hin as [Hin|Hin]; [specialize (Hps _ Hin)|].
    - class_cases.
    - apply in_app_or in Hin as [Hin|[<-|[]]]; [specialize (Hims _ Hin)|];
        class_cases. }
  induction (ps ++ ims ++ [f]) as [|c l IH]; [reflexivity|].
  cbn [flat_map]. rewrite (Hall c (or_introl eq_refl)). cbn [app].
  f_equal. apply IH. intros d Hd. apply Hall. now right.
Qed.

Lemma replacer_plain (capture code : jsstring) :
  CsiCode code ->
  flat_map encode_newline (replacer capture code) = replacer capture code.
Proof.
  intros Hcode. unfold replacer.
  destruct (sgrParameterName_of code) as [name|] eqn:Hn.
  - apply sgrParameterName_of_inv in Hn as (before & ds & _ & _ & _ & _ & Hname);
      [|exact Hcode].
    apply friendly_name_plain in Hname as [_ Hname].
    rewrite !flat_map_app, Hname. reflexivity.
  - rewrite !flat_map_app, (CsiCode_plain code Hcode). reflexivity.
Qed.

(** What [formatForTests] does with a CSI sequence anywhere in a text,
    whatever the options. *)
Lemma formatForTests_sequence_options
    (options : option IAnsiEscapeConvertForTestsOptions) (pre code rest : jsstring) :
  CsiCode code ->
  formatForTests (pre ++ ESC :: 0x5b :: code ++ rest) options =
  formatForTests pre options ++
  replacer (ESC :: 0x5b :: code) code ++ formatForTests rest options.
Proof.
  intros Hcode. destruct options as [o|].
  - rewrite !formatForTests_options.
    rewrite (formatForTests_sequence pre code rest Hcode).
    destruct (truthy_flag (encodeNewlines o)); [|reflexivity].
    now rewrite !flat_map_app, (replacer_plain _ code Hcode).
  - now apply formatForTests_sequence.
Qed.

(** A code that ends in a run of digits and ["m"], after parameter bytes
    that do not end in a digit: the run is looked up. *)
Lemma formatForTests_trailing_run
    (options : option IAnsiEscapeConvertForTestsOptions)
    (pre before ds rest name : jsstring) :
  forallb is_param before = true ->
  is_digit (last before 0x3b) = false ->
  ds <> [] -> forallb is_digit ds = true ->
  _tryGetSgrFriendlyName (parseInt ds) = Some name ->
  formatForTests (pre ++ ESC :: 0x5b :: (before ++ ds ++ [0x6d]) ++ rest) options =
  formatForTests pre options ++
  (lit "[" ++ name ++ lit "]") ++ formatForTests rest options.
Proof.
  intros Hbefore Hlast Hne Hds Hname.
  rewrite formatForTests_sequence_options.
  - unfold replacer. rewrite (sgrParameterName_of_trailing before ds name);
      try assumption; [reflexivity|].
    intros c Hin ->. rewrite forallb_forall in Hbefore.
    now specialize (Hbefore _ Hin).
  - rewrite app_assoc. apply CsiCode_params; [|reflexivity].
    rewrite forallb_app, Hbefore. cbn [andb].
    apply forallb_forall. intros c Hin. apply digit_is_param.
    rewrite forallb_forall in Hds. now apply Hds.
Qed.

Lemma formatForTests_zeros (k : nat) (ds name : jsstring) :
  ds <> [] -> forallb is_digit ds = true ->
  _tryGetSgrFriendlyName (parseInt ds) = Some name ->
  formatForTests (ESC :: 0x5b :: repeat 0x30 k ++ ds ++ [0x6d]) None =
  lit "[" ++ name ++ lit "]".
Proof.
  intros Hne Hds Hname.
  pose proof (formatForTests_trailing_run None [] [] (repeat 0x30 k ++ ds) [] name)
    as H.
  cbn [app] in H. rewrite app_nil_r, <- app_assoc in H.
  rewrite H; try reflexivity.
  - now rewrite formatForTests_nil, app_nil_r.
  - destruct k; [exact Hne | discriminate].
  - rewrite forallb_app, Hds, andb_true_r.
    clear. induction k as [|k IH]; [reflexivity | exact IH].
  - now rewrite parseInt_leading_zeros.
Qed.

End Translation.

(* ================================================================== *)
(** ** The properties of the specification                             *)
(* ================================================================== *)

Section Claims.

(** *** C5, C7, C3, C4: [removeCodes] *)

(** C5.  [removeCodes s] is [s] with the substrings that match the CSI
    grammar (escape, ["["], parameter bytes 0x30-0x3F, intermediate bytes
    0x20-0x2F, one final byte 0x40-0x7E) deleted from left to right without
    overlap, and every other character kept in place: it is a deletion in the
    sense of [Deleted], and it is the only one.  No substring that matches the
    grammar escapes the scan: wherever one lies in [s], it is cut out. *)
Theorem removeCodes_deletes_csi_sequences (s : jsstring) :
  Deleted s (removeCodes s) /\
  (forall out, Deleted s out -> out = removeCodes s) /\
  (forall pre m post,
     s = pre ++ m ++ post -> CsiSequence m ->
     removeCodes s = removeCodes pre ++ removeCodes post).
Proof.
  split; [apply removeCodes_Deleted|].
  split; [apply Deleted_removeCodes|].
  intros pre m post -> Hm.
  destruct (recognize_prefix m post Hm) as (code & -> & Hr).
  cbn [app] in *. rewrite removeCodes_before_escape. f_equal.
  exact (removeCodes_csi _ code post Hr).
Qed.

Lemma removeCodes_deletes_csi_sequences_witness :
  Deleted (ESC :: lit "[31mRed" ++ ESC :: lit "[39m") (lit "Red") /\
  removeCodes (ESC :: lit "[31mRed" ++ ESC :: lit "[39m") = lit "Red".
Proof.
  split; [|reflexivity].
  exact (proj1 (removeCodes_deletes_csi_sequences
                  (ESC :: lit "[31mRed" ++ ESC :: lit "[39m"))).
Defined.

(** C7.  A text in which no substring matches the CSI grammar is returned
    unchanged by [removeCodes] and by [formatForTests] without options.  That
    covers a text without escape character; and an escape character that is
    not followed by ["["], and a bare ["\x1b["] at the end of the text, are
    passed through as they are. *)
Theorem csi_free_text_unchanged :
  (forall s, NoCsiSequence s ->
     removeCodes s = s /\ formatForTests s None = s) /\
  (forall s, ~ In ESC s ->
     removeCodes s = s /\ formatForTests s None = s) /\
  (forall s c t, (c =? 0x5b) = false ->
     removeCodes (s ++ ESC :: c :: t) =
       removeCodes s ++ ESC :: removeCodes (c :: t) /\
     formatForTests (s ++ ESC :: c :: t) None =
       formatForTests s None ++ ESC :: formatForTests (c :: t) None) /\
  (forall s,
     removeCodes (s ++ [ESC; 0x5b]) = removeCodes s ++ [ESC; 0x5b] /\
     formatForTests (s ++ [ESC; 0x5b]) None =
       formatForTests s None ++ [ESC; 0x5b]).
Proof.
  repeat split.
  - now apply removeCodes_fixed.
  - now apply formatForTests_fixed.
  - now apply removeCodes_fixed, no_escape_NoCsiSequence.
  - now apply formatForTests_fixed, no_escape_NoCsiSequence.
  - rewrite removeCodes_before_escape. f_equal. apply removeCodes_keep.
    unfold recognize. now rewrite H, andb_false_r.
  - rewrite formatForTests_before_escape. f_equal. apply formatForTests_keep.
    unfold recognize. now rewrite H, andb_false_r.
  - now rewrite removeCodes_before_escape.
  - now rewrite formatForTests_before_escape.
Qed.

Lemma csi_free_text_unchanged_witness :
  NoCsiSequence (lit "ab" ++ ESC :: lit "c" ++ ESC :: lit "[") /\
  removeCodes (lit "ab" ++ ESC :: lit "c" ++ ESC :: lit "[") =
    lit "ab" ++ ESC :: lit "c" ++ ESC :: lit "[" /\
  formatForTests (lit "ab" ++ ESC :: lit "c" ++ ESC :: lit "[") None =
    lit "ab" ++ ESC :: lit "c" ++ ESC :: lit "[".
Proof.
  assert (H : NoCsiSequence (lit "ab" ++ ESC :: lit "c" ++ ESC :: lit "["))
    by (apply exec_none_NoCsiSequence; vm_compute; reflexivity).
  split; [exact H|].
  exact (proj1 csi_free_text_unchanged _ H).
Defined.

(** C3, as the code has it.  [removeCodes] only takes out the escape
    characters that begin a CSI sequence.  When every escape character of the
    text begins one, the result holds no escape character and no CSI
    sequence; and when one of them begins none, the result holds an escape
    character. *)
Theorem removeCodes_no_escape_left (s : jsstring) :
  (EveryEscapeBeginsCsi s ->
   ~ In ESC (removeCodes s) /\ NoCsiSequence (removeCodes s)) /\
  (~ In ESC (removeCodes s) -> EveryEscapeBeginsCsi s).
Proof.
  split; [|apply removeCodes_escape_left].
  intros H. pose proof (removeCodes_no_escape s H) as Hesc.
  split; [exact Hesc | now apply no_escape_NoCsiSequence].
Qed.

Lemma removeCodes_no_escape_left_witness :
  EveryEscapeBeginsCsi (ESC :: lit "[31mRed" ++ ESC :: lit "[39m") /\
  ~ In ESC (removeCodes (ESC :: lit "[31mRed" ++ ESC :: lit "[39m")) /\
  NoCsiSequence (removeCodes (ESC :: lit "[31mRed" ++ ESC :: lit "[39m")).
Proof.
  assert (H : EveryEscapeBeginsCsi (ESC :: lit "[31mRed" ++ ESC :: lit "[39m"))
    by (apply escapes_begin_csi_sound; vm_compute; reflexivity).
  split; [exact H|].
  exact (proj1 (removeCodes_no_escape_left _) H).
Defined.

(** C3 as the specification states it fails: an escape character that
    begins no CSI sequence is kept, and what is left can even be a CSI
    sequence. *)
Lemma removeCodes_keeps_lone_escape :
  removeCodes (ESC :: ESC :: lit "[m[m") = ESC :: lit "[m" /\
  In ESC (removeCodes (ESC :: ESC :: lit "[m[m")) /\
  CsiSequence (removeCodes (ESC :: ESC :: lit "[m[m")).
Proof.
  split; [reflexivity|]. split.
  - now left.
  - exists (lit "m"). split; [reflexivity|].
    now exists [], [], 0x6d.
Qed.

(** C4, as the code has it.  [removeCodes] is idempotent on every text in
    which every escape character begins a CSI sequence. *)
Theorem removeCodes_idempotent (s : jsstring) :
  EveryEscapeBeginsCsi s ->
  removeCodes (removeCodes s) = removeCodes s.
Proof.
  intros H. apply removeCodes_fixed, no_escape_NoCsiSequence.
  now apply removeCodes_no_escape.
Qed.

Lemma removeCodes_idempotent_witness :
  EveryEscapeBeginsCsi (lit "a" ++ ESC :: lit "[1;31mb" ++ ESC :: lit "[0m") /\
  removeCodes (removeCodes (lit "a" ++ ESC :: lit "[1;31mb" ++ ESC :: lit "[0m")) =
  removeCodes (lit "a" ++ ESC :: lit "[1;31mb" ++ ESC :: lit "[0m").
Proof.
  assert (H : EveryEscapeBeginsCsi
                (lit "a" ++ ESC :: lit "[1;31mb" ++ ESC :: lit "[0m"))
    by (apply escapes_begin_csi_sound; vm_compute; reflexivity).
  split; [exact H|].
  exact (removeCodes_idempotent _ H).
Defined.

(** C4 as the specification states it fails: a second pass removes the
    sequence that the first pass put together. *)
Lemma removeCodes_not_idempotent :
  removeCodes (removeCodes (ESC :: ESC :: lit "[m[m")) <>
  removeCodes (ESC :: ESC :: lit "[m[m").
Proof. vm_compute. discriminate. Qed.

(** *** C1, C2, C9: the replacement of a CSI sequence *)

(** C1, as the code has it.  A CSI sequence whose code has no friendly
    name is replaced by ["["], the code and ["]"], where the code is what
    follows the introducer: the parameter and intermediate bytes and the final
    byte.  The final byte is part of the token. *)
Theorem formatForTests_fallback
    (options : option IAnsiEscapeConvertForTestsOptions)
    (pre ps ims : jsstring) (f : char) (rest : jsstring) :
  forallb is_param ps = true ->
  forallb is_intermediate ims = true ->
  is_final f = true ->
  sgrParameterName_of (ps ++ ims ++ [f]) = None ->
  formatForTests (pre ++ ESC :: 0x5b :: (ps ++ ims ++ [f]) ++ rest) options =
  formatForTests pre options ++
  (lit "[" ++ (ps ++ ims ++ [f]) ++ lit "]") ++ formatForTests rest options.
Proof.
  intros Hps Hims Hf Hnone.
  rewrite formatForTests_sequence_options by now exists ps, ims, f.
  unfold replacer. now rewrite Hnone.
Qed.

Lemma formatForTests_fallback_witness :
  formatForTests (lit "a" ++ ESC :: lit "[0m" ++ lit "b") None = lit "a[0m]b".
Proof.
  exact (formatForTests_fallback None (lit "a") (lit "0") [] 0x6d (lit "b")
           eq_refl eq_refl eq_refl eq_refl).
Defined.

(** C1 as the specification states it fails twice: ["\x1b[1;31m"] has a
    friendly name, and the fallback token of ["\x1b[0m"], whose code has
    none, keeps the final byte. *)
Lemma formatForTests_fallback_counterexample :
  formatForTests (ESC :: lit "[1;31m") None = lit "[red]" /\
  formatForTests (ESC :: lit "[1;31m") None <> lit "[1;31]" /\
  sgrParameterName_of (lit "0m") = None /\
  formatForTests (ESC :: lit "[0m") None = lit "[0m]" /\
  formatForTests (ESC :: lit "[0m") None <> lit "[" ++ lit "0" ++ lit "]".
Proof.
  repeat split; try reflexivity; vm_compute; discriminate.
Qed.

(** What the translation step computes on a CSI code.  [_sgrRegExp] has
    no anchors, so the step looks at the end of the code and not at the whole
    of it: it yields a friendly name exactly when the code ends in one or more
    decimal digits followed by ["m"] and the number read from the longest such
    run of digits is in the table, whatever comes before the run.  When it
    yields none, the replacer emits the fallback token. *)
Theorem sgr_translation_reads_trailing_run (ps ims : jsstring) (f : char) :
  forallb is_param ps = true ->
  forallb is_intermediate ims = true ->
  is_final f = true ->
  (forall name,
     sgrParameterName_of (ps ++ ims ++ [f]) = Some name <->
     exists before ds,
       ps ++ ims ++ [f] = before ++ ds ++ [0x6d] /\
       is_digit (last before 0x3b) = false /\
       ds <> [] /\ forallb is_digit ds = true /\
       _tryGetSgrFriendlyName (parseInt ds) = Some name) /\
  (forall capture name,
     sgrParameterName_of (ps ++ ims ++ [f]) = Some name ->
     replacer capture (ps ++ ims ++ [f]) = lit "[" ++ name ++ lit "]") /\
  (forall capture,
     sgrParameterName_of (ps ++ ims ++ [f]) = None ->
     replacer capture (ps ++ ims ++ [f]) =
     lit "[" ++ (ps ++ ims ++ [f]) ++ lit "]").
Proof.
  intros Hps Hims Hf.
  assert (Hcode : CsiCode (ps ++ ims ++ [f])) by now exists ps, ims, f.
  split; [|split].
  - intros name. split.
    + now apply sgrParameterName_of_inv.
    + intros (before & ds & Heq & Hlast & Hne & Hds & Hname).
      rewrite Heq. apply sgrParameterName_of_trailing; try assumption.
      intros c Hin ->.
      rewrite Heq, app_assoc in Hcode.
      destruct (CsiCode_body _ _ Hcode) as [_ Hbody].
      assert (Hc : is_final 0x6d = false)
        by (apply Hbody, in_or_app; now left).
      discriminate.
  - intros capture name H. unfold replacer. now rewrite H.
  - intros capture H. unfold replacer. now rewrite H.
Qed.

Lemma sgr_translation_reads_trailing_run_witness :
  sgrParameterName_of (lit "0;1m") = Some (lit "bold") <->
  exists before ds,
    lit "0;1m" = before ++ ds ++ [0x6d] /\
    is_digit (last before 0x3b) = false /\
    ds <> [] /\ forallb is_digit ds = true /\
    _tryGetSgrFriendlyName (parseInt ds) = Some (lit "bold").
Proof.
  exact (proj1 (sgr_translation_reads_trailing_run (lit "0;1") [] 0x6d
                  eq_refl eq_refl eq_refl) (lit "bold")).
Defined.

(** C2.  The comments of the class read an SGR code as a number followed
    by ["m"], and the translation step is meant for a code that is, as a
    whole, decimal digits followed by ["m"]; any other code is to get the
    fallback token.  The pattern [/([0-9]+)m/u] has no anchors, so the code
    misses that: on the two-parameter code ["0;1m"] the step yields ["bold"],
    and the 24-bit colour sequence ["\x1b[38;2;255;0;90m"] is shown as
    ["[gray]"], where the whole-code reading yields no name for either. *)
Theorem sgr_translation_misses_whole_code :
  whole_code_translation (lit "0;1m") = None /\
  sgrParameterName_of (lit "0;1m") = Some (lit "bold") /\
  formatForTests (ESC :: lit "[0;1m") None = lit "[bold]" /\
  formatForTests (ESC :: lit "[0;1m") None <> lit "[0;1m]" /\
  whole_code_translation (lit "38;2;255;0;90m") = None /\
  sgrParameterName_of (lit "38;2;255;0;90m") = Some (lit "gray") /\
  formatForTests (ESC :: lit "[38;2;255;0;90m") None = lit "[gray]" /\
  formatForTests (ESC :: lit "[38;2;255;0;90m") None <> lit "[38;2;255;0;90m]".
Proof.
  repeat split; try reflexivity; vm_compute; discriminate.
Qed.

(** C9.  A CSI sequence whose code is parameter bytes that end in a run
    of digits, followed by ["m"], is replaced by the friendly token of the
    number of that run when the table has it, and not by the fallback
    token. *)
Theorem formatForTests_multi_parameter
    (options : option IAnsiEscapeConvertForTestsOptions)
    (pre before : jsstring) (d : char) (ds rest name : jsstring) :
  forallb is_param before = true ->
  is_digit (last before 0x3b) = false ->
  forallb is_digit (d :: ds) = true ->
  _tryGetSgrFriendlyName (parseInt (d :: ds)) = Some name ->
  formatForTests
    (pre ++ ESC :: 0x5b :: (before ++ (d :: ds) ++ [0x6d]) ++ rest) options =
  formatForTests pre options ++
  (lit "[" ++ name ++ lit "]") ++ formatForTests rest options.
Proof.
  intros Hbefore Hlast Hds Hname.
  now apply formatForTests_trailing_run.
Qed.

Lemma formatForTests_multi_parameter_witness :
  formatForTests (ESC :: lit "[38;5;31m") None = lit "[red]".
Proof.
  exact (formatForTests_multi_parameter None [] (lit "38;5;") 0x33 (lit "1") []
           (lit "red") eq_refl eq_refl eq_refl eq_refl).
Defined.

(** *** C6, C10: the table *)

(** C6.  For each of the 32 pairs of the table, the sequence made of the
    introducer, the code in decimal and ["m"] is replaced by the name in
    brackets. *)
Theorem formatForTests_table :
  List.length sgr_table = 32%nat /\
  Forall (fun entry =>
            formatForTests (ESC :: lit "[" ++ toString (fst entry) ++ lit "m") None =
            lit "[" ++ lit (snd entry) ++ lit "]")
         sgr_table.
Proof.
  split; [reflexivity|]. unfold sgr_table.
  repeat (apply Forall_cons; [vm_compute; reflexivity|]).
  apply Forall_nil.
Qed.

(** C10.  The digits are read as a decimal number, so leading zeros do not
    count: for each pair of the table the sequence with ["0"] before the code
    is replaced by the same token, and so is the sequence with any number of
    zeros before the code. *)
Theorem formatForTests_leading_zeros :
  Forall (fun entry =>
            formatForTests (ESC :: lit "[0" ++ toString (fst entry) ++ lit "m") None =
            lit "[" ++ lit (snd entry) ++ lit "]" /\
            forall k,
              formatForTests
                (ESC :: lit "[" ++ repeat 0x30 k ++ toString (fst entry) ++ lit "m")
                None =
              lit "[" ++ lit (snd entry) ++ lit "]")
         sgr_table /\
  formatForTests (ESC :: lit "[01m") None = lit "[bold]".
Proof.
  split; [|reflexivity]. unfold sgr_table.
  repeat (apply Forall_cons;
          [split;
           [vm_compute; reflexivity
           |intros k; apply formatForTests_zeros;
            [discriminate | reflexivity | reflexivity]]|]).
  apply Forall_nil.
Qed.

(** *** C8: newlines *)

(** C8.  With [encodeNewlines] true the result is the result of the
    escape substitution in which every line feed has become ["[n]"] and every
    carriage return ["[r]"]; with [encodeNewlines] false or missing, and
    without options, the result is the result of the escape substitution
    alone. *)
Theorem formatForTests_encodeNewlines :
  (forall s,
     formatForTests s (Some {| encodeNewlines := Some true |}) =
     flat_map encode_newline (formatForTests s None)) /\
  formatForTests (lit "a" ++ LF :: lit "b" ++ CR :: lit "c")
                 (Some {| encodeNewlines := Some true |}) =
    lit "a[n]b[r]c" /\
  (forall s,
     formatForTests s (Some {| encodeNewlines := Some false |}) =
       formatForTests s None /\
     formatForTests s (Some {| encodeNewlines := None |}) =
       formatForTests s None) /\
  formatForTests (lit "a" ++ LF :: lit "b" ++ CR :: lit "c") None =
    lit "a" ++ LF :: lit "b" ++ CR :: lit "c".
Proof.
  repeat split; try reflexivity.
  intros s. apply formatForTests_options.
Qed.

End Claims.

(* ================================================================== *)
(** ** Further properties of the two operations                        *)
(* ================================================================== *)

Section Further.

(** *** What the scan touches *)

Lemma friendly_name_printable (x : option N) (name : jsstring) :
  _tryGetSgrFriendlyName x = Some name -> forallb is_printable name = true.
Proof.
  destruct x as [[|p]|]; cbn; try discriminate.
  repeat (destruct p as [p|p|]; cbn; try discriminate);
    intros [= <-]; reflexivity.
Qed.

Lemma CsiCode_printable (code : jsstring) :
  CsiCode code -> forallb is_printable code = true.
Proof.
  intros (ps & ims & f & -> & Hps & Hims & Hf).
  rewrite !forallb_app. cbn [forallb]. rewrite andb_true_r.
  apply andb_true_iff; split; [|apply andb_true_iff; split].
  - apply forallb_forall. intros c Hin. rewrite forallb_forall in Hps.
    specialize (Hps c Hin). unfold is_printable. class_cases.
  - apply forallb_forall. intros c Hin. rewrite forallb_forall in Hims.
    specialize (Hims c Hin). unfold is_printable. class_cases.
  - unfold is_printable. class_cases.
Qed.

Lemma replacer_printable (capture code : jsstring) :
  CsiCode code -> forallb is_printable (replacer capture code) = true.
Proof.
  intros Hcode. unfold replacer.
  destruct (sgrParameterName_of code) as [name|] eqn:Hn.
  - apply sgrParameterName_of_inv in Hn as (before & ds & _ & _ & _ & _ & Hname);
      [|exact Hcode].
    rewrite !forallb_app, (friendly_name_printable _ _ Hname). reflexivity.
  - rewrite !forallb_app, (CsiCode_printable code Hcode). reflexivity.
Qed.

Lemma filter_printable (p : char -> bool) (t : jsstring) :
  (forall c, is_printable c = true -> p c = false) ->
  forallb is_printable t = true -> filter p t = [].
Proof.
  intros Hp. induction t as [|c t IH]; [reflexivity|].
  cbn [forallb filter]. intros H. apply andb_true_iff in H as [Hc Ht].
  now rewrite (Hp c Hc), (IH Ht).
Qed.

Lemma printable_no_escape (t : jsstring) :
  forallb is_printable t = true -> ~ In ESC t.
Proof.
  intros H Hin. rewrite forallb_forall in H. now specialize (H _ Hin).
Qed.

(** *** Where the operations change nothing *)

Lemma removeCodes_length (s : jsstring) :
  (List.length (removeCodes s) <= List.length s)%nat.
Proof.
  induction s as [|c s Hr IH|code e Hr IH] using csi_scan_ind.
  - reflexivity.
  - rewrite (removeCodes_keep c s Hr). cbn [List.length]. lia.
  - rewrite (removeCodes_csi _ code e Hr). cbn [List.length].
    rewrite length_app. lia.
Qed.

Lemma NoCsiSequence_keep (c : char) (s : jsstring) :
  recognize (c :: s) = None -> NoCsiSequence s -> NoCsiSequence (c :: s).
Proof.
  intros Hr Hs [|d pre] m post Heq Hm; cbn [app] in Heq.
  - exact (recognize_none_inv _ Hr m post Hm Heq).
  - injection Heq as _ Heq. exact (Hs pre m post Heq Hm).
Qed.

Lemma removeCodes_same_length (s : jsstring) :
  List.length (removeCodes s) = List.length s -> NoCsiSequence s.
Proof.
  induction s as [|c s Hr IH|code e Hr IH] using csi_scan_ind; intros H.
  - intros pre m post Heq (code & -> & _). now destruct pre.
  - rewrite (removeCodes_keep c s Hr) in H. cbn [List.length] in H.
    apply NoCsiSequence_keep; [exact Hr|]. apply IH. lia.
  - rewrite (removeCodes_csi _ code e Hr) in H. cbn [List.length] in H.
    rewrite length_app in H. pose proof (removeCodes_length e). lia.
Qed.

Lemma formatForTests_fixed_inv (s : jsstring) :
  formatForTests s None = s -> NoCsiSequence s.
Proof.
  induction s as [|c s Hr IH|code e Hr IH] using csi_scan_ind; intros H.
  - intros pre m post Heq (code & -> & _). now destruct pre.
  - rewrite (formatForTests_keep c s Hr) in H. injection H as H.
    apply NoCsiSequence_keep; [exact Hr | exact (IH H)].
  - rewrite (formatForTests_csi _ code e Hr) in H. unfold replacer in H.
    destruct (sgrParameterName_of code); cbn in H; discriminate.
Qed.

(** *** Escape characters in the result of [formatForTests] *)

Lemma formatForTests_escape (s : jsstring) :
  In ESC (formatForTests s None) <-> In ESC (removeCodes s).
Proof.
  induction s as [|c s Hr IH|code e Hr IH] using csi_scan_ind.
  - reflexivity.
  - rewrite (formatForTests_keep c s Hr), (removeCodes_keep c s Hr).
    cbn [In]. now rewrite IH.
  - rewrite (formatForTests_csi _ code e Hr), (removeCodes_csi _ code e Hr).
    rewrite <- IH. apply recognize_spec in Hr as [_ Hcode].
    split; [|intros H; apply in_or_app; now right].
    intros H. apply in_app_or in H as [H|H]; [|exact H].
    now elim (printable_no_escape _
                (replacer_printable (ESC :: 0x5b :: code) code Hcode)).
Qed.

Lemma encode_newline_chars (t : jsstring) (x : char) :
  In x (flat_map encode_newline t) ->
  x <> LF /\ x <> CR /\ (x = ESC -> In ESC t).
Proof.
  intros H. apply in_flat_map in H as (c & Hc & Hx).
  unfold encode_newline in Hx.
  destruct (N.eqb_spec c LF) as [->|Hn].
  - cbn in Hx. repeat split; intros ->; intuition discriminate.
  - destruct (N.eqb_spec c CR) as [->|Hr].
    + cbn in Hx. repeat split; intros ->; intuition discriminate.
    + destruct Hx as [<-|[]]. repeat split; try assumption.
      now intros ->.
Qed.

Lemma encode_newline_keeps_escape (t : jsstring) :
  In ESC t -> In ESC (flat_map encode_newline t).
Proof.
  intros H. apply in_flat_map. exists ESC. split; [exact H | now left].
Qed.

Lemma encode_newline_idempotent (t : jsstring) :
  flat_map encode_newline (flat_map encode_newline t) =
  flat_map encode_newline t.
Proof.
  induction t as [|c t IH]; [reflexivity|].
  cbn [flat_map]. rewrite flat_map_app, IH. f_equal.
  unfold encode_newline.
  destruct (N.eqb_spec c LF) as [->|Hn]; [reflexivity|].
  destruct (N.eqb_spec c CR) as [->|Hr]; [reflexivity|].
  cbn [flat_map]. apply N.eqb_neq in Hn, Hr. rewrite Hn, Hr. reflexivity.
Qed.

Lemma formatForTests_escape_options
    (options : option IAnsiEscapeConvertForTestsOptions) (s : jsstring) :
  In ESC (formatForTests s options) <-> In ESC (removeCodes s).
Proof.
  rewrite <- formatForTests_escape. destruct options as [o|]; [|reflexivity].
  rewrite formatForTests_options.
  destruct (truthy_flag (encodeNewlines o)); [|reflexivity].
  split; [|apply encode_newline_keeps_escape].
  intros H. now apply (encode_newline_chars _ ESC H).
Qed.

(** *** Concatenation *)

Lemma recognize_app (t code e b : jsstring) :
  recognize t = Some (code, e) -> recognize (t ++ b) = Some (code, e ++ b).
Proof.
  intros H. apply recognize_spec in H as [-> Hcode].
  apply recognize_spec. split; [|exact Hcode].
  cbn [app]. now rewrite <- app_assoc.
Qed.

Lemma recognize_not_escape (c : char) (s : jsstring) :
  c <> ESC -> recognize (c :: s) = None.
Proof.
  intros Hc. unfold recognize. destruct s as [|c2 t]; [reflexivity|].
  apply N.eqb_neq in Hc. now rewrite Hc.
Qed.

Lemma replace_csi_app (f : MatchResult -> jsstring) (a b : jsstring) :
  EveryEscapeBeginsCsi a ->
  replace (a ++ b) _csiRegExp f =
  replace a _csiRegExp f ++ replace b _csiRegExp f.
Proof.
  induction a as [|c a Hr IH|code e Hr IH] using csi_scan_ind; intros H.
  - reflexivity.
  - assert (Hc : c <> ESC).
    { intros ->. destruct (H [] a eq_refl) as (m & rest & Hm & Heq).
      exact (recognize_none_inv _ Hr m rest Hm Heq). }
    cbn [app].
    rewrite (replace_csi_keep f c _ (recognize_not_escape c (a ++ b) Hc)).
    rewrite (replace_csi_keep f c _ Hr).
    now rewrite (IH (EveryEscapeBeginsCsi_cons c a H)).
  - rewrite (replace_csi_match f _ _ _ (recognize_app _ _ _ b Hr)).
    rewrite (replace_csi_match f _ _ _ Hr).
    rewrite IH, <- app_assoc; [reflexivity|].
    apply (EveryEscapeBeginsCsi_app (ESC :: 0x5b :: code)). exact H.
Qed.

(** *** The table *)

Lemma friendly_name_in_table (x : option N) (name : jsstring) :
  _tryGetSgrFriendlyName x = Some name ->
  exists n nm, x = Some n /\ In (n, nm) sgr_table /\ name = lit nm.
Proof.
  destruct x as [[|p]|]; cbn [_tryGetSgrFriendlyName]; try discriminate.
  repeat (destruct p as [p|p|]; cbn [_tryGetSgrFriendlyName]; try discriminate);
    intros [= <-]; eexists _, _; (split; [reflexivity|]);
    (split; [|reflexivity]); unfold sgr_table;
    repeat first [left; reflexivity | right].
Qed.

Lemma table_has_friendly_name (n : N) (nm : string) :
  In (n, nm) sgr_table -> _tryGetSgrFriendlyName (Some n) = Some (lit nm).
Proof.
  unfold sgr_table. cbn [In]. intros H.
  repeat (destruct H as [[= <- <-]|H]; [reflexivity|]). contradiction.
Qed.

(** X1.  [removeCodes] never makes a text longer, and it returns the text
    as it is, or one of the same length, exactly when no substring of the
    text matches the CSI grammar. *)
Theorem removeCodes_fixed_iff (s : jsstring) :
  (List.length (removeCodes s) <= List.length s)%nat /\
  (removeCodes s = s <-> NoCsiSequence s) /\
  (List.length (removeCodes s) = List.length s <-> NoCsiSequence s).
Proof.
  split; [apply removeCodes_length|]. split; split.
  - intros H. apply removeCodes_same_length. now rewrite H.
  - apply removeCodes_fixed.
  - apply removeCodes_same_length.
  - intros H. now rewrite (removeCodes_fixed s H).
Qed.

(** X2.  [formatForTests] without options returns the text as it is
    exactly when no substring of the text matches the CSI grammar: every
    sequence that is there shows in the result. *)
Theorem formatForTests_fixed_iff (s : jsstring) :
  formatForTests s None = s <-> NoCsiSequence s.
Proof.
  split; [apply formatForTests_fixed_inv | apply formatForTests_fixed].
Qed.

(** X3.  The two operations only delete and insert printable ASCII
    characters and escape characters.  The characters of any other kind
    (newlines, tabs, other control characters, non-ASCII text) are the same,
    in the same order, in the text and in the result. *)
Theorem other_characters_kept (p : char -> bool) (s : jsstring) :
  p ESC = false ->
  (forall c, is_printable c = true -> p c = false) ->
  filter p (removeCodes s) = filter p s /\
  filter p (formatForTests s None) = filter p s.
Proof.
  intros Hesc Hp.
  induction s as [|c s Hr IH|code e Hr IH] using csi_scan_ind.
  - split; reflexivity.
  - destruct IH as [IHr IHf].
    rewrite (removeCodes_keep c s Hr), (formatForTests_keep c s Hr).
    cbn [filter]. now rewrite IHr, IHf.
  - destruct IH as [IHr IHf].
    rewrite (removeCodes_csi _ code e Hr), (formatForTests_csi _ code e Hr).
    apply recognize_spec in Hr as [_ Hcode].
    cbn [filter]. rewrite Hesc, (Hp 0x5b eq_refl), !filter_app.
    rewrite (filter_printable p code Hp (CsiCode_printable code Hcode)).
    rewrite (filter_printable p _ Hp (replacer_printable _ code Hcode)).
    now rewrite IHr, IHf.
Qed.

Lemma other_characters_kept_witness :
  filter (fun c => (c =? LF) || (c =? CR))
         (removeCodes (lit "a" ++ LF :: ESC :: lit "[31mb" ++ [CR])) = [LF; CR] /\
  filter (fun c => (c =? LF) || (c =? CR))
         (formatForTests (lit "a" ++ LF :: ESC :: lit "[31mb" ++ [CR]) None) =
    [LF; CR].
Proof.
  apply (other_characters_kept (fun c => (c =? LF) || (c =? CR))
           (lit "a" ++ LF :: ESC :: lit "[31mb" ++ [CR])).
  - reflexivity.
  - intros c Hc. unfold is_printable in Hc. class_cases.
Defined.

(** X4.  Whatever the options, the result of [formatForTests] holds no
    escape character exactly when every escape character of the text begins a
    CSI sequence: the tokens hold none, and an escape character that begins no
    sequence is copied. *)
Theorem formatForTests_no_escape_left
    (options : option IAnsiEscapeConvertForTestsOptions) (s : jsstring) :
  ~ In ESC (formatForTests s options) <-> EveryEscapeBeginsCsi s.
Proof.
  rewrite formatForTests_escape_options.
  split; [apply removeCodes_escape_left | apply removeCodes_no_escape].
Qed.

(** X5.  With [encodeNewlines] true the result of [formatForTests] holds
    no line feed and no carriage return, whatever the text. *)
Theorem formatForTests_no_newline_left (s : jsstring) :
  ~ In LF (formatForTests s (Some {| encodeNewlines := Some true |})) /\
  ~ In CR (formatForTests s (Some {| encodeNewlines := Some true |})).
Proof.
  rewrite formatForTests_options. cbn [truthy_flag encodeNewlines].
  split; intros H; apply encode_newline_chars in H; tauto.
Qed.

(** X6.  [_tryGetSgrFriendlyName] is the table and nothing more: it
    answers a name exactly for the 32 codes of the table, each with its name,
    and [undefined] for every other number and for [NaN]. *)
Theorem sgr_table_exact (x : option N) (name : jsstring) :
  _tryGetSgrFriendlyName x = Some name <->
  exists n nm, x = Some n /\ In (n, nm) sgr_table /\ name = lit nm.
Proof.
  split; [apply friendly_name_in_table|].
  intros (n & nm & -> & Hin & ->). now apply table_has_friendly_name.
Qed.

(** X7.  No two codes share a friendly name, so a friendly token in the
    result of [formatForTests] tells which SGR code was read. *)
Theorem friendly_name_injective (x y : option N) (name : jsstring) :
  _tryGetSgrFriendlyName x = Some name ->
  _tryGetSgrFriendlyName y = Some name ->
  x = y.
Proof.
  intros Hx Hy.
  apply friendly_name_in_table in Hx as (n & nm & -> & Hn & ->).
  apply friendly_name_in_table in Hy as (n' & nm' & -> & Hn' & Heq).
  unfold sgr_table in Hn, Hn'. cbn [In] in Hn, Hn'.
  repeat (destruct Hn as [[= <- <-]|Hn];
          [repeat (destruct Hn' as [[= <- <-]|Hn'];
                   [first [reflexivity | discriminate Heq]|]);
           contradiction|]).
  contradiction.
Qed.

Lemma friendly_name_injective_witness :
  Some (parse_digits 0 (lit "031")) = Some 31.
Proof.
  exact (friendly_name_injective (parseInt (lit "031")) (Some 31) (lit "red")
           eq_refl eq_refl).
Defined.

(** X8.  On a text in which every escape character begins a CSI
    sequence, [formatForTests] is idempotent for any options, [removeCodes]
    leaves its result as it is, and [formatForTests] without options leaves
    the result of [removeCodes] as it is. *)
Theorem formatForTests_idempotent
    (options : option IAnsiEscapeConvertForTestsOptions) (s : jsstring) :
  EveryEscapeBeginsCsi s ->
  formatForTests (formatForTests s options) options = formatForTests s options /\
  removeCodes (formatForTests s options) = formatForTests s options /\
  formatForTests (removeCodes s) None = removeCodes s.
Proof.
  intros H.
  assert (Hfree : NoCsiSequence (formatForTests s options)).
  { apply no_escape_NoCsiSequence. rewrite formatForTests_escape_options.
    now apply removeCodes_no_escape. }
  split; [|split].
  - destruct options as [o|]; [|now apply formatForTests_fixed].
    rewrite (formatForTests_options (formatForTests s (Some o)) o).
    rewrite (formatForTests_fixed _ Hfree).
    destruct (truthy_flag (encodeNewlines o)) eqn:Ho; [|reflexivity].
    rewrite formatForTests_options, Ho. apply encode_newline_idempotent.
  - now apply removeCodes_fixed.
  - apply formatForTests_fixed, no_escape_NoCsiSequence.
    now apply removeCodes_no_escape.
Qed.

Lemma formatForTests_idempotent_witness :
  formatForTests
    (formatForTests (ESC :: lit "[31mRed" ++ LF :: ESC :: lit "[39m")
                    (Some {| encodeNewlines := Some true |}))
    (Some {| encodeNewlines := Some true |}) =
  lit "[red]Red[n][default]".
Proof.
  assert (H : EveryEscapeBeginsCsi
                (ESC :: lit "[31mRed" ++ LF :: ESC :: lit "[39m"))
    by (apply escapes_begin_csi_sound; vm_compute; reflexivity).
  exact (proj1 (formatForTests_idempotent
                  (Some {| encodeNewlines := Some true |}) _ H)).
Defined.

(** X9.  The two operations distribute over the concatenation of two
    texts when every escape character of the first text begins a CSI sequence
    (within that text): a text can then be processed piece by piece. *)
Theorem operations_distribute_over_append
    (options : option IAnsiEscapeConvertForTestsOptions) (a b : jsstring) :
  EveryEscapeBeginsCsi a ->
  removeCodes (a ++ b) = removeCodes a ++ removeCodes b /\
  formatForTests (a ++ b) options =
  formatForTests a options ++ formatForTests b options.
Proof.
  intros H.
  assert (Hnone : formatForTests (a ++ b) None =
                  formatForTests a None ++ formatForTests b None).
  { unfold formatForTests. cbn [truthy_flag encodeNewlines].
    now apply replace_csi_app. }
  split; [now apply replace_csi_app|].
  destruct options as [o|]; [|exact Hnone].
  rewrite !formatForTests_options, Hnone.
  destruct (truthy_flag (encodeNewlines o)); [|reflexivity].
  now rewrite flat_map_app.
Qed.

Lemma operations_distribute_over_append_witness :
  removeCodes ((ESC :: lit "[1mBold") ++ ESC :: lit "[22m") = lit "Bold" /\
  formatForTests ((ESC :: lit "[1mBold") ++ ESC :: lit "[22m") None =
    lit "[bold]Bold[normal]".
Proof.
  assert (H : EveryEscapeBeginsCsi (ESC :: lit "[1mBold"))
    by (apply escapes_begin_csi_sound; vm_compute; reflexivity).
  exact (operations_distribute_over_append None _ (ESC :: lit "[22m") H).
Defined.

(** X10.  Whatever the two texts and the options, the two operations can
    be applied on either side of an escape character: no sequence that starts
    before an escape character reaches past it. *)
Theorem operations_split_at_escape
    (options : option IAnsiEscapeConvertForTestsOptions) (p s : jsstring) :
  removeCodes (p ++ ESC :: s) = removeCodes p ++ removeCodes (ESC :: s) /\
  formatForTests (p ++ ESC :: s) options =
  formatForTests p options ++ formatForTests (ESC :: s) options.
Proof.
  split; [apply removeCodes_before_escape|].
  destruct options as [o|]; [|apply formatForTests_before_escape].
  rewrite !formatForTests_options, formatForTests_before_escape.
  destruct (truthy_flag (encodeNewlines o)); [|reflexivity].
  now rewrite flat_map_app.
Qed.

(** X11.  A CSI sequence that does not end in a digit followed by ["m"]
    (a final byte other than ["m"], as for cursor and erase commands, or
    ["m"] after an intermediate byte, after a byte such as [";"], or alone) is
    replaced by the fallback token made of its code, whatever the options. *)
Theorem formatForTests_non_sgr_fallback
    (options : option IAnsiEscapeConvertForTestsOptions)
    (pre ps ims : jsstring) (f : char) (rest : jsstring) :
  forallb is_param ps = true ->
  forallb is_intermediate ims = true ->
  is_final f = true ->
  (f =? 0x6d) && is_digit (last (ps ++ ims) 0x3b) = false ->
  formatForTests (pre ++ ESC :: 0x5b :: (ps ++ ims ++ [f]) ++ rest) options =
  formatForTests pre options ++
  (lit "[" ++ (ps ++ ims ++ [f]) ++ lit "]") ++ formatForTests rest options.
Proof.
  intros Hps Hims Hf Hno.
  assert (Hcode : CsiCode (ps ++ ims ++ [f])) by now exists ps, ims, f.
  rewrite (formatForTests_sequence_options options pre _ rest Hcode).
  unfold replacer.
  destruct (sgrParameterName_of (ps ++ ims ++ [f])) as [name|] eqn:Hn;
    [exfalso | reflexivity].
  apply sgrParameterName_of_inv in Hn
    as (before & ds & Heq & _ & Hne & Hds & _); [|exact Hcode].
  rewrite !app_assoc in Heq. apply app_inj_tail in Heq as [Heq ->].
  rewrite Heq, (last_app_nonempty before ds _ Hne) in Hno.
  now rewrite (forallb_last is_digit ds _ Hne Hds) in Hno.
Qed.

Lemma formatForTests_non_sgr_fallback_witness :
  formatForTests (lit "x" ++ ESC :: lit "[2J" ++ lit "y") None = lit "x[2J]y".
Proof.
  exact (formatForTests_non_sgr_fallback None (lit "x") (lit "2") [] 0x4a (lit "y")
           eq_refl eq_refl eq_refl eq_refl).
Defined.

End Further.
